(** * MongoDBMemoryStore: a shallow embedding of the connector and its contract

    Source: python/semantic_kernel/connectors/memory/mongodb/mongodb_memory_store.py

    The connector is a thin layer over a pymongo database handle.  The
    embedding has three parts:

    - an in-memory model of the collaborator: the state of the server, the
      driver calls the connector issues, and a log of those calls;
    - the names imported from [.utils], which are not part of the file
      under verification and are taken as parameters (the class [Utils]);
    - the methods of the class, written in an exception-and-state monad over
      the world.  An [async def] method is a computation of that monad and
      [await] is its bind; a call that is not awaited yields the coroutine
      object and runs nothing. *)

From stdpp Require Import base option list gmap strings fin_maps.
From Stdlib Require Import ZArith Lia.

Open Scope string_scope.
Open Scope list_scope.
Open Scope Z_scope.

(** ** Exceptions and results *)

Inductive exn :=
  | ValueError (msg : string)
  | TypeError (msg : string)
  | AttributeError (msg : string)
  | CollectionInvalid (msg : string).

Inductive Res (A : Type) :=
  | Ok (a : A)
  | Raise (e : exn).
Arguments Ok {A} a.
Arguments Raise {A} e.

(** ** Documents *)

Section Connector.

(** Embeddings are numpy arrays of floating-point numbers.  The connector
    never inspects their components, so the carrier stays abstract; it only
    needs a decidable equality because the server compares stored values.
    A search pipeline is likewise an opaque value built by [.utils]. *)
Context {ndarray Pipeline : Type} `{!EqDecision ndarray}.

Inductive Value :=
  | VNone
  | VStr (s : string)
  | VInt (z : Z)
  | VArray (a : ndarray)
  | VObjectId (n : nat).

#[global] Instance Value_eq_dec : EqDecision Value.
Proof. solve_decision. Defined.

(** A document, a filter and the argument of [$set] are Python dicts with
    string keys. *)
Abbreviation Doc := (gmap string Value).

(** ** The domain record

    [MemoryRecord] lives in [semantic_kernel.memory.memory_record]; the
    connector reads and writes its [_id] attribute only, the rest is the
    payload the mapping functions of [.utils] deal with. *)
Record MemoryRecord := mkMemoryRecord {
  _id : option string;
  _text : string;
  _embedding : ndarray;
}.

Definition set_id (record : MemoryRecord) (i : string) : MemoryRecord :=
  mkMemoryRecord (Some i) (_text record) (_embedding record).

(** Python truthiness of a value that is [None] or a [str]. *)
Definition truthy_str (s : option string) : bool :=
  match s with
  | None => false
  | Some s => negb (bool_decide (s = ""))
  end.

(** ** Handles *)

Record MongoClient := mkMongoClient { address : option string }.
Record Database := mkDatabase { db_name : string }.
Record CollectionHandle := mkCollectionHandle {
  coll_db : Database;
  coll_name : string;
}.

Inductive Logger := NullLogger | UserLogger (name : string).

(** ** The names imported from [.utils] *)

Class Utils := {
  DEFAULT_INSERT_BATCH_SIZE : Z;
  SEARCH_FIELD_ID : string;
  dict_to_memory_record : Doc → option string → MemoryRecord;
  memory_record_to_mongodb_record : MemoryRecord → option string → Doc;
  get_azuremongodb_similarity_query :
    ndarray → option string → Z → Pipeline;
  get_mongodbatlas_similarity_query :
    ndarray → option string → string → Z → Pipeline;
  get_mongodb_resources :
    option string → string → MongoClient * Database;
}.

Context {U : Utils}.

(** ** The collaborator: an in-memory MongoDB *)

(** The options of a Cosmos vector index, as the connector writes them. *)
Record CosmosSearchOptions := mkCosmosSearchOptions {
  kind : string;
  numLists : Z;
  similarity : string;
  dimensions : option Z;
}.

Record IndexSpec := mkIndexSpec {
  name : string;
  key : option string * string;
  cosmosSearchOptions : CosmosSearchOptions;
}.

(** What [list_indexes] yields for one index: its name and, for an index
    created through [createIndexes], the specification it was created
    from. *)
Record IndexDoc := mkIndexDoc {
  idx_name : string;
  idx_spec : option IndexSpec;
}.

Record Collection := mkCollection {
  documents : list Doc;
  indexes : list IndexDoc;
}.

Definition empty_collection : Collection := mkCollection [] [].

(** The argument of [Database.command]. *)
Inductive Command :=
  | createIndexes (collection_name : string) (specs : list IndexSpec).

(** The update document of [update_one]. *)
Inductive Update := USet (fields : Doc).

Inductive Call :=
  | Call_list_collection_names (d : Database)
  | Call_create_collection (d : Database) (collection_name : string)
  | Call_command (d : Database) (cmd : Command)
  | Call_drop (c : CollectionHandle)
  | Call_list_indexes (c : CollectionHandle)
  | Call_find_one (c : CollectionHandle) (filter : Doc)
  | Call_find (c : CollectionHandle) (filter : Doc)
  | Call_update_one (c : CollectionHandle) (filter : Doc) (u : Update)
  | Call_insert_many (c : CollectionHandle) (docs : list Doc)
  | Call_delete_one (c : CollectionHandle) (filter : Doc)
  | Call_aggregate (c : CollectionHandle) (pipeline : Pipeline)
  | Call_close (c : MongoClient).

(** The world: the server's databases, the log of driver calls in the order
    they were issued, what was printed, and the sources of fresh values
    (the random UUIDs of the process, the ObjectIds of the server).  The
    vector search itself happens inside the server: [search] is what the
    server answers to a pipeline over the documents of a collection. *)
Record World := mkWorld {
  server : gmap string (gmap string Collection);
  trace : list Call;
  stdout : list string;
  uuid_pool : nat → string;
  uuid_next : nat;
  oid_next : nat;
  search : Pipeline → list Doc → list Doc;
}.

Definition with_server (w : World) (s : gmap string (gmap string Collection)) : World :=
  mkWorld s (trace w) (stdout w) (uuid_pool w) (uuid_next w) (oid_next w) (search w).

Definition with_trace (w : World) (t : list Call) : World :=
  mkWorld (server w) t (stdout w) (uuid_pool w) (uuid_next w) (oid_next w) (search w).

Definition with_stdout (w : World) (o : list string) : World :=
  mkWorld (server w) (trace w) o (uuid_pool w) (uuid_next w) (oid_next w) (search w).

Definition with_uuid_next (w : World) (n : nat) : World :=
  mkWorld (server w) (trace w) (stdout w) (uuid_pool w) n (oid_next w) (search w).

Definition with_oid_next (w : World) (n : nat) : World :=
  mkWorld (server w) (trace w) (stdout w) (uuid_pool w) (uuid_next w) n (search w).

Definition db_state (w : World) (d : Database) : gmap string Collection :=
  default ∅ (server w !! db_name d).

Definition coll_state (w : World) (c : CollectionHandle) : Collection :=
  default empty_collection (db_state w (coll_db c) !! coll_name c).

Definition coll_docs (w : World) (c : CollectionHandle) : list Doc :=
  documents (coll_state w c).

Definition set_db (w : World) (d : Database) (st : gmap string Collection) : World :=
  with_server w (<[db_name d := st]> (server w)).

Definition set_coll (w : World) (c : CollectionHandle) (st : Collection) : World :=
  set_db w (coll_db c) (<[coll_name c := st]> (db_state w (coll_db c))).

Definition set_docs (w : World) (c : CollectionHandle) (ds : list Doc) : World :=
  set_coll w c (mkCollection ds (indexes (coll_state w c))).

Definition log (w : World) (c : Call) : World := with_trace w (trace w ++ [c]).

(** ** The monad

    A computation takes the world and gives a result or an exception,
    together with the world it leaves behind. *)

Definition M (A : Type) : Type := World → Res A * World.

#[global] Instance M_ret : MRet M := λ A a w, (Ok a, w).

#[global] Instance M_bind : MBind M := λ A B f m w,
  match m w with
  | (Ok a, w') => f a w'
  | (Raise e, w') => (Raise e, w')
  end.

Definition raise {A} (e : exn) : M A := λ w, (Raise e, w).

(** ** Driver calls

    Every call is appended to the log.  The model has no network or
    authentication failures, and a collection is a list of documents in
    insertion order: the unique index of the server on ["_id"] is not
    modelled, so [insert_many] stores whatever it is given.  The errors
    kept are [create_collection] on an existing collection and
    [insert_many] on an empty list. *)

(** A document matches a query when it carries every field of the query
    with an equal value. *)
Definition Matches (query doc : Doc) : Prop :=
  map_Forall (λ k v, doc !! k = Some v) query.

#[global] Instance Matches_dec query doc : Decision (Matches query doc).
Proof. unfold Matches. apply _. Defined.

Definition find_first (query : Doc) (docs : list Doc) : option Doc :=
  head (filter (Matches query) docs).

Fixpoint update_first (query : Doc) (f : Doc → Doc) (docs : list Doc) : list Doc :=
  match docs with
  | [] => []
  | d :: ds =>
      if decide (Matches query d) then f d :: ds
      else d :: update_first query f ds
  end.

Fixpoint delete_first (query : Doc) (docs : list Doc) : list Doc :=
  match docs with
  | [] => []
  | d :: ds =>
      if decide (Matches query d) then ds
      else d :: delete_first query ds
  end.

Definition list_collection_names (d : Database) : M (list string) := λ w,
  (Ok (map fst (map_to_list (db_state w d))),
   log w (Call_list_collection_names d)).

Definition create_collection (d : Database) (collection_name : string) : M unit := λ w,
  let w := log w (Call_create_collection d collection_name) in
  match db_state w d !! collection_name with
  | Some _ => (Raise (CollectionInvalid collection_name), w)
  | None => (Ok tt, set_db w d (<[collection_name := empty_collection]> (db_state w d)))
  end.

(** [createIndexes] creates the collection when it does not exist yet and
    adds the listed indexes to it. *)
Definition command (d : Database) (cmd : Command) : M unit := λ w,
  let w := log w (Call_command d cmd) in
  match cmd with
  | createIndexes collection_name specs =>
      let c := mkCollectionHandle d collection_name in
      let st := coll_state w c in
      (Ok tt,
       set_coll w c
         (mkCollection (documents st)
            (indexes st ++ map (λ s, mkIndexDoc (name s) (Some s)) specs)))
  end.

Definition drop (c : CollectionHandle) : M unit := λ w,
  let w := log w (Call_drop c) in
  (Ok tt, set_db w (coll_db c) (delete (coll_name c) (db_state w (coll_db c)))).

Definition list_indexes (c : CollectionHandle) : M (list IndexDoc) := λ w,
  (Ok (indexes (coll_state w c)), log w (Call_list_indexes c)).

Definition find_one (c : CollectionHandle) (query : Doc) : M (option Doc) := λ w,
  (Ok (find_first query (coll_docs w c)), log w (Call_find_one c query)).

Definition find (c : CollectionHandle) (query : Doc) : M (list Doc) := λ w,
  (Ok (filter (Matches query) (coll_docs w c)), log w (Call_find c query)).

Record UpdateResult := mkUpdateResult { modified_count : Z }.

(** [update_one] with [$set]: the first matching document gets the fields
    of the update, overwriting the ones it already has; nothing is inserted
    when no document matches. *)
Definition update_one (c : CollectionHandle) (query : Doc) (u : Update) : M UpdateResult := λ w,
  let w := log w (Call_update_one c query u) in
  match u with
  | USet fields =>
      match find_first query (coll_docs w c) with
      | None => (Ok (mkUpdateResult 0), w)
      | Some d =>
          (Ok (mkUpdateResult (if decide (fields ∪ d = d) then 0 else 1)),
           set_docs w c (update_first query (λ d, fields ∪ d) (coll_docs w c)))
      end
  end.

(** The server keys documents by ["_id"] and gives a fresh ObjectId to a
    document that comes without one. *)
Fixpoint assign_object_ids (n : nat) (docs : list Doc) : list Doc * nat :=
  match docs with
  | [] => ([], n)
  | d :: ds =>
      match d !! "_id" with
      | Some _ => let '(ds', n') := assign_object_ids n ds in (d :: ds', n')
      | None =>
          let '(ds', n') := assign_object_ids (S n) ds in
          (<["_id" := VObjectId n]> d :: ds', n')
      end
  end.

Record InsertManyResult := mkInsertManyResult { inserted_ids : list Value }.

Definition insert_many (c : CollectionHandle) (docs : list Doc) : M InsertManyResult := λ w,
  let w := log w (Call_insert_many c docs) in
  match docs with
  | [] => (Raise (TypeError "documents must be a non-empty list"), w)
  | _ =>
      let '(docs', n') := assign_object_ids (oid_next w) docs in
      (Ok (mkInsertManyResult (map (λ d, default VNone (d !! "_id")) docs')),
       with_oid_next (set_docs w c (coll_docs w c ++ docs')) n')
  end.

Definition delete_one (c : CollectionHandle) (query : Doc) : M unit := λ w,
  let w := log w (Call_delete_one c query) in
  match find_first query (coll_docs w c) with
  | None => (Ok tt, w)
  | Some _ => (Ok tt, set_docs w c (delete_first query (coll_docs w c)))
  end.

Definition aggregate (c : CollectionHandle) (pipeline : Pipeline) : M (list Doc) := λ w,
  (Ok (search w pipeline (coll_docs w c)), log w (Call_aggregate c pipeline)).

Definition close (c : MongoClient) : M unit := λ w, (Ok tt, log w (Call_close c)).

(** [str(uuid.uuid4())] and [print]. *)
Definition uuid4 : M string := λ w,
  (Ok (uuid_pool w (uuid_next w)), with_uuid_next w (S (uuid_next w))).

Definition print (s : string) : M unit := λ w, (Ok tt, with_stdout w (stdout w ++ [s])).

(** ** The class [MongoDBMemoryStore]

    The attributes of an instance.  The class body gives nine of them the
    default [None]; [_collection] and [batch_size] exist only once
    [__init__] has assigned them ([None] stands for "not set" there). *)
Record Instance := mkInstance {
  _mongodb_client : option MongoClient;
  _vector_size : option Z;
  _logger : option Logger;
  _database : option Database;
  _embedding_key : option string;
  _batch_size : option Z;
  _api_type : option string;
  _index_name : option string;
  _collection_name : option string;
  _collection : option CollectionHandle;
  batch_size : option Z;
}.

(** A new object before [__init__] runs: every attribute comes from the
    class body. *)
Definition class_attributes : Instance :=
  mkInstance None None None None None None None None None None None.

(** [self._database[collection_name]] and [self._database.method]:
    subscripting or dereferencing [None] raises. *)
Definition getitem (d : option Database) (collection_name : string) : M CollectionHandle :=
  match d with
  | None => raise (TypeError "'NoneType' object is not subscriptable")
  | Some d => mret (mkCollectionHandle d collection_name)
  end.

Definition getattr (d : option Database) : M Database :=
  match d with
  | None => raise (AttributeError "'NoneType' object has no attribute")
  | Some d => mret d
  end.

(** The Python objects that can stand where [__init__] tests the result of
    [does_index_exist_async]: the operands of [and], an index document of
    [list_indexes], and the coroutine object that calling an [async def]
    function returns (its body is the computation that an [await] would
    run). *)
Inductive PyObj :=
  | PyNone
  | PyBool (b : bool)
  | PyStr (s : string)
  | PyIndex (d : IndexDoc)
  | PyCoroutine (body : M bool).

Definition truthy (o : PyObj) : bool :=
  match o with
  | PyNone => false
  | PyBool b => b
  | PyStr s => negb (bool_decide (s = ""))
  | PyIndex _ => true
  | PyCoroutine _ => true
  end.

(** [a and b] *)
Definition py_and (a b : PyObj) : PyObj := if truthy a then b else a.

Definition py_of_str (s : option string) : PyObj :=
  match s with
  | None => PyNone
  | Some s => PyStr s
  end.

#[global] Instance CosmosSearchOptions_eq_dec : EqDecision CosmosSearchOptions.
Proof. solve_decision. Defined.
#[global] Instance IndexSpec_eq_dec : EqDecision IndexSpec.
Proof. solve_decision. Defined.
#[global] Instance IndexDoc_eq_dec : EqDecision IndexDoc.
Proof. solve_decision. Defined.

(** [a == b]; a mapping equals only a mapping, a coroutine only itself. *)
Definition py_eq (a b : PyObj) : bool :=
  match a, b with
  | PyNone, PyNone => true
  | PyBool x, PyBool y => bool_decide (x = y)
  | PyStr x, PyStr y => bool_decide (x = y)
  | PyIndex x, PyIndex y => bool_decide (x = y)
  | _, _ => false
  end.

(** [does_index_exist_async], lines 167-182. *)
Definition does_index_exist_async (self : Instance)
    (collection_name : string) (index_name : PyObj) : M bool :=
  collection ← getitem (_database self) collection_name;
  listed ← list_indexes collection;
  if existsb (λ d, py_eq index_name (PyIndex d)) listed then mret true
  else mret false.

(** [does_collection_exist_async], lines 184-196. *)
Definition does_collection_exist_async (self : Instance)
    (collection_name : string) : M bool :=
  d ← getattr (_database self);
  names ← list_collection_names d;
  if bool_decide (collection_name ∈ names) then mret true
  else mret false.

(** [__init__], lines 49-88.  It runs on the new object [self] and either
    raises or assigns the attributes; the result carries the object as
    [__init__] leaves it, so that what a failed construction has touched
    can be read off.  The driver checks the collection name when line 83
    subscripts the database (an empty name is refused there); that check
    is the collaborator's and is not modelled, so what is proved about a
    construction that passes the four guards holds for the names the
    driver lets through. *)
Definition __init__ (self : Instance)
    (vector_size : Z)
    (connection_string : option string)
    (database_name : option string)
    (api_type : option string)
    (embedding_key : option string)
    (collection_name : option string)
    (index_name : option string)
    (batch_size : Z)
    (logger : option Logger)
    (w : World) : Res unit * Instance * World :=
  if bool_decide (vector_size ≤ 0) then
    (Raise (ValueError "Vector dimension must be a positive integer"), self, w)
  else match embedding_key with
  | None => (Raise (ValueError "embedding_key must be specified"), self, w)
  | Some _ =>
  match database_name with
  | None => (Raise (ValueError "database_name must be specified"), self, w)
  | Some database_name =>
  match collection_name with
  | None => (Raise (ValueError "collection_name must be specified"), self, w)
  | Some collection_name =>
      (* the call is not awaited: it yields the coroutine object *)
      let exists_ :=
        PyCoroutine
          (does_index_exist_async self collection_name
             (py_and (py_of_str (_index_name self))
                     (PyBool (bool_decide (_api_type self = Some "mongodbatlas"))))) in
      if negb (truthy exists_) then
        (Raise (ValueError "Index does not exist"), self, w)
      else
        let '(client, database) := get_mongodb_resources connection_string database_name in
        (Ok tt,
         mkInstance
           (Some client)
           (Some vector_size)
           (Some (default NullLogger logger))
           (Some database)
           embedding_key
           (_batch_size self)
           api_type
           index_name
           (_collection_name self)
           (Some (mkCollectionHandle database collection_name))
           (Some batch_size),
         w)
  end end end.

(** [await x] where [x] is the [None] a synchronous driver method has
    returned: [None] is no awaitable. *)
Definition await_none {A : Type} (x : unit) : M A :=
  raise (TypeError "object NoneType can't be used in 'await' expression").

(** [close_async], lines 90-93.  The driver is used synchronously
    throughout the class; [close] runs when it is called and hands back
    [None], which line 93 then awaits. *)
Definition close_async (self : Instance) : M unit :=
  match _mongodb_client self with
  | Some client => closed ← close client; await_none closed
  | None => mret tt
  end.

(** [create_collection_async], lines 95-144. *)
Definition create_collection_async (self : Instance)
    (collection_name : string) (similarity : string) (num_lists : Z) : M unit :=
  if bool_decide (_api_type self = Some "azuremongodb") then
    present ← does_collection_exist_async self collection_name;
    if negb present then
      d ← getattr (_database self);
      command d
        (createIndexes collection_name
           [mkIndexSpec "vectorSearchIndex"
              (_embedding_key self, "cosmosSearch")
              (mkCosmosSearchOptions "vector-ivf" num_lists similarity
                 (_vector_size self))])
    else mret tt
  else if bool_decide (_api_type self = Some "mongodbatlas") then
    present ← does_collection_exist_async self collection_name;
    if negb present then
      d ← getattr (_database self);
      create_collection d collection_name
    else mret tt
  else mret tt.

(** [get_collections_async], lines 146-153. *)
Definition get_collections_async (self : Instance) : M (list string) :=
  d ← getattr (_database self);
  list_collection_names d.

(** [delete_collection_async], lines 155-165. *)
Definition delete_collection_async (self : Instance) (collection_name : string) : M unit :=
  collection ← getitem (_database self) collection_name;
  drop collection.

(** [for x in xs: body], with the local variables the body assigns as the
    loop state. *)
Fixpoint for_ {A S : Type} (xs : list A) (body : A → S → M S) (s : S) : M S :=
  match xs with
  | [] => mret s
  | x :: xs => s' ← body x s; for_ xs body s'
  end.

(** The value of [record._id] inside a query and inside an f-string. *)
Definition id_value (i : option string) : Value :=
  match i with
  | None => VNone
  | Some s => VStr s
  end.

Definition id_str (i : option string) : string := default "None" i.

(** Truthiness of what [find_one] returns: [None] and the empty dict are
    falsy. *)
Definition truthy_doc (d : option Doc) : bool :=
  match d with
  | None => false
  | Some d => negb (bool_decide (d = ∅))
  end.

(** Lines 232-233: a record without an id gets a random one.  The
    assignment is to the caller's object; the computation hands the record
    on as the rest of the iteration sees it. *)
Definition ensure_id (record : MemoryRecord) : M MemoryRecord :=
  if negb (truthy_str (_id record)) then
    u ← uuid4; mret (set_id record u)
  else mret record.

(** One iteration of the loop of [upsert_batch_async], lines 232-258; the
    loop state is [(mongodb_records, inserted_ids)]. *)
Definition upsert_batch_body (self : Instance) (collection : CollectionHandle)
    (record : MemoryRecord) (st : list Doc * list Value) : M (list Doc * list Value) :=
  let '(mongodb_records, inserted) := st in
  record ← ensure_id record;
  existing_document ← find_one collection {[SEARCH_FIELD_ID := id_value (_id record)]};
  if truthy_doc existing_document then
    update_result ←
      update_one collection {[SEARCH_FIELD_ID := id_value (_id record)]}
        (USet (memory_record_to_mongodb_record record (_embedding_key self)));
    (if bool_decide (modified_count update_result > 0) then
       print ("Updated existing document with _id: " +:+ id_str (_id record))
     else mret tt);;
    mret (mongodb_records, inserted)
  else
    let mongodb_record := memory_record_to_mongodb_record record (_embedding_key self) in
    let mongodb_records := mongodb_records ++ [mongodb_record] in
    if bool_decide (Z.of_nat (length mongodb_records) = DEFAULT_INSERT_BATCH_SIZE) then
      result ← insert_many collection mongodb_records;
      mret ([], inserted ++ inserted_ids result)
    else mret (mongodb_records, inserted).

(** [upsert_batch_async], lines 214-264. *)
Definition upsert_batch_async (self : Instance)
    (collection_name : string) (records : list MemoryRecord) : M (list Value) :=
  collection ← getitem (_database self) collection_name;
  st ← for_ records (upsert_batch_body self collection) ([], []);
  let '(mongodb_records, inserted) := st in
  match mongodb_records with
  | _ :: _ =>
      result ← insert_many collection mongodb_records;
      mret (inserted ++ inserted_ids result)
  | [] => mret inserted
  end.

(** [upsert_async], lines 198-212. *)
Definition upsert_async (self : Instance)
    (collection_name : string) (record : MemoryRecord) : M (option Value) :=
  result ← upsert_batch_async self collection_name [record];
  match result with
  | first :: _ => mret (Some first)
  | [] => mret None
  end.

(** [get_async], lines 266-281: the first document of the cursor, or the
    implicit [None] when the loop body never runs. *)
Definition get_async (self : Instance)
    (collection_name : string) (key : string) : M (option MemoryRecord) :=
  let query : Doc := {[SEARCH_FIELD_ID := VStr key]} in
  collection ← getitem (_database self) collection_name;
  cursor ← find collection query;
  match cursor with
  | doc :: _ => mret (Some (dict_to_memory_record doc (_embedding_key self)))
  | [] => mret None
  end.

(** [get_batch_async], lines 283-297. *)
Definition get_batch_async (self : Instance)
    (collection_name : string) (keys : list string) : M (list MemoryRecord) :=
  collection ← getitem (_database self) collection_name;
  for_ keys
    (λ key search_results,
       let query : Doc := {[SEARCH_FIELD_ID := VStr key]} in
       result_cursor ← find collection query;
       for_ result_cursor
         (λ document search_results,
            let memory_record := dict_to_memory_record document (_embedding_key self) in
            mret (search_results ++ [memory_record]))
         search_results)
    [].

(** [remove_batch_async], lines 299-312. *)
Definition remove_batch_async (self : Instance)
    (collection_name : string) (keys : list string) : M unit :=
  collection ← getitem (_database self) collection_name;
  for_ keys
    (λ key _,
       let docs_to_delete : Doc := {[SEARCH_FIELD_ID := VStr key]} in
       delete_one collection docs_to_delete)
    tt.

(** [remove_async], lines 314-317. *)
Definition remove_async (self : Instance)
    (collection_name : string) (key : string) : M unit :=
  collection ← getitem (_database self) collection_name;
  let docs_to_delete : Doc := {[SEARCH_FIELD_ID := VStr key]} in
  delete_one collection docs_to_delete.

(** The pipeline [get_nearest_matches_async] builds, lines 352-362. *)
Definition search_pipeline (self : Instance)
    (collection_name : string) (embedding : ndarray) (limit : Z) : Pipeline :=
  if bool_decide (_api_type self = Some "azuremongodb") then
    get_azuremongodb_similarity_query embedding (_embedding_key self) limit
  else
    get_mongodbatlas_similarity_query embedding (_embedding_key self)
      collection_name limit.

(** [get_nearest_matches_async], lines 331-371. *)
Definition get_nearest_matches_async (self : Instance)
    (collection_name : string) (embedding : ndarray) (limit : Z) : M (list MemoryRecord) :=
  let search_pipeline := search_pipeline self collection_name embedding limit in
  collection ← getitem (_database self) collection_name;
  search_cursor ← aggregate collection search_pipeline;
  for_ search_cursor
    (λ result matching_records,
       mret (matching_records ++ [dict_to_memory_record result (_embedding_key self)]))
    [].

(** [get_nearest_match_async], lines 319-329. *)
Definition get_nearest_match_async (self : Instance)
    (collection_name : string) (embedding : ndarray) : M (option MemoryRecord) :=
  memory_records ← get_nearest_matches_async self collection_name embedding 1;
  match memory_records with
  | first :: _ => mret (Some first)
  | [] => mret None
  end.

(** ** Vocabulary of the contract *)

(** The four messages [__init__] raises for a bad argument, and the one it
    raises for a missing index. *)
Definition configuration_messages : list string :=
  [ "Vector dimension must be a positive integer";
    "embedding_key must be specified";
    "database_name must be specified";
    "collection_name must be specified" ].

Definition is_configuration_error {A : Type} (r : Res A) : bool :=
  match r with
  | Raise (ValueError msg) => bool_decide (msg ∈ configuration_messages)
  | _ => false
  end.

Definition is_missing_index_error {A : Type} (r : Res A) : bool :=
  match r with
  | Raise (ValueError msg) => bool_decide (msg = "Index does not exist")
  | _ => false
  end.

(** The arguments the contract calls invalid: a dimension that is not
    positive, or a name that is not a non-empty string. *)
Definition contract_invalid_arguments (vector_size : Z)
    (embedding_key database_name collection_name : option string) : bool :=
  bool_decide (vector_size ≤ 0)
  || negb (truthy_str embedding_key)
  || negb (truthy_str database_name)
  || negb (truthy_str collection_name).

(** The arguments the guards of [__init__] reject. *)
Definition rejected_arguments (vector_size : Z)
    (embedding_key database_name collection_name : option string) : bool :=
  bool_decide (vector_size ≤ 0)
  || bool_decide (embedding_key = None)
  || bool_decide (database_name = None)
  || bool_decide (collection_name = None).

(** Whether the collection carries an index of that name. *)
Definition has_index (w : World) (c : CollectionHandle) (index_name : string) : bool :=
  bool_decide (index_name ∈ map idx_name (indexes (coll_state w c))).

Definition is_insert_many (c : Call) : bool :=
  match c with
  | Call_insert_many _ _ => true
  | _ => false
  end.

(** The bulk-insert calls among the calls issued after the first [n]. *)
Definition insert_calls_since (n : nat) (w : World) : list Call :=
  filter (λ c, is_insert_many c = true) (skipn n (trace w)).

(** ⌈n/b⌉ for a positive [b]. *)
Definition ceil_div (n b : Z) : Z := (n + b - 1) `div` b.

(** The index [create_collection_async] asks the Cosmos dialect for. *)
Definition cosmos_index (self : Instance) (similarity : string) (num_lists : Z) : IndexSpec :=
  mkIndexSpec "vectorSearchIndex" (_embedding_key self, "cosmosSearch")
    (mkCosmosSearchOptions "vector-ivf" num_lists similarity (_vector_size self)).

(** The query that selects the document of a key. *)
Definition by_id (key : string) : Doc := {[SEARCH_FIELD_ID := VStr key]}.

(** The id a record carries once [upsert_batch_async] has looked at it: its
    own, or the UUID drawn for it. *)
Definition assigned_id (w : World) (record : MemoryRecord) : option string :=
  if truthy_str (_id record) then _id record
  else Some (uuid_pool w (uuid_next w)).

(** The record and the world as [ensure_id] leaves them. *)
Definition with_id (w : World) (record : MemoryRecord) : MemoryRecord :=
  if truthy_str (_id record) then record
  else set_id record (uuid_pool w (uuid_next w)).

Definition after_id (w : World) (record : MemoryRecord) : World :=
  if truthy_str (_id record) then w
  else with_uuid_next w (S (uuid_next w)).

(** The id column of a list of documents. *)
Definition ids_of (docs : list Doc) : list (option Value) :=
  map (λ d, d !! SEARCH_FIELD_ID) docs.

(** The query [upsert_batch_async] looks a record up with, and the document
    it writes for it. *)
Definition query_of (record : MemoryRecord) : Doc :=
  {[SEARCH_FIELD_ID := id_value (_id record)]}.

Definition document_of (self : Instance) (record : MemoryRecord) : Doc :=
  memory_record_to_mongodb_record record (_embedding_key self).

(** [Upsert] in the words of the contract: the batch upsert of the
    one-element batch, then the first id of its result or nothing. *)
Definition Upsert_contract (self : Instance)
    (collection_name : string) (record : MemoryRecord) : M (option Value) :=
  ids ← upsert_batch_async self collection_name [record];
  mret (head ids).


(** The [update_one] and [find_one] calls of a log. *)
Definition is_update_one (c : Call) : bool :=
  match c with
  | Call_update_one _ _ _ => true
  | _ => false
  end.

Definition is_find_one (c : Call) : bool :=
  match c with
  | Call_find_one _ _ => true
  | _ => false
  end.

Definition count_calls (p : Call → bool) (calls : list Call) : nat :=
  length (filter (λ c, p c = true) calls).

(** The calls issued after the first [n]. *)
Definition calls_since (n : nat) (w : World) : list Call := skipn n (trace w).

(** The world after one [find] per key. *)
Definition log_finds (c : CollectionHandle) (keys : list string) (w : World) : World :=
  foldl (λ w key, log w (Call_find c (by_id key))) w keys.

(** A document is kept by a batch removal when it answers to none of the
    keys. *)
Definition kept_by (keys : list string) (doc : Doc) : Prop :=
  Forall (λ key, ¬ Matches (by_id key) doc) keys.

#[global] Instance kept_by_dec keys doc : Decision (kept_by keys doc).
Proof. unfold kept_by. apply _. Defined.

(** The document found for a record carries every field written for it. *)
Definition carried_by (self : Instance) (record : MemoryRecord) (docs : list Doc) : Prop :=
  ∃ doc, find_first (query_of record) docs = Some doc
         ∧ document_of self record ⊆ doc.

(** The record has no document yet and its own is the one waiting for it
    in the buffer. *)
Definition waiting_in (self : Instance) (record : MemoryRecord)
    (docs buf : list Doc) : Prop :=
  find_first (query_of record) docs = None
  ∧ find_first (query_of record) buf = Some (document_of self record).

(** The decoding of a document with the embedding key of the store. *)
Definition record_of (self : Instance) (doc : Doc) : MemoryRecord :=
  dict_to_memory_record doc (_embedding_key self).

(** What [__init__] answers, check by check. *)
Definition init_outcome (vector_size : Z)
    (embedding_key database_name collection_name : option string) : Res unit :=
  if bool_decide (vector_size ≤ 0) then
    Raise (ValueError "Vector dimension must be a positive integer")
  else if bool_decide (embedding_key = None) then
    Raise (ValueError "embedding_key must be specified")
  else if bool_decide (database_name = None) then
    Raise (ValueError "database_name must be specified")
  else if bool_decide (collection_name = None) then
    Raise (ValueError "collection_name must be specified")
  else Ok tt.

End Connector.

(** ** A concrete instance

    One choice for the parameters, used to run the definitions: embeddings
    are lists of integers, a pipeline records the dialect it was built for
    and its arguments, and the server answers a pipeline with the first
    [limit] documents. *)
Module Demo.

Record DemoPipeline := mkDemoPipeline {
  stage : string;
  query_vector : list Z;
  path : option string;
  index_collection : option string;
  limit : Z;
}.

(** Modelled from the spec: the constants and functions of [.utils], which
    the source imports and does not define.  A document is a mapping with
    an id field, the embedding under the configurable field name and the
    payload, and the two mappings are inverse to each other on those
    fields.  The batch constant is kept small so that flushes show on short
    batches. *)
Definition utils : @Utils (list Z) DemoPipeline := {|
  DEFAULT_INSERT_BATCH_SIZE := 2;
  SEARCH_FIELD_ID := "_id";
  dict_to_memory_record := λ d embedding_key,
    mkMemoryRecord
      (match d !! "_id" with Some (VStr s) => Some s | _ => None end)
      (match d !! "text" with Some (VStr s) => s | _ => "" end)
      (match d !! default "embedding" embedding_key with
       | Some (VArray a) => a
       | _ => []
       end);
  memory_record_to_mongodb_record := λ r embedding_key,
    <["_id" := id_value (_id r)]>
      (<["text" := VStr (_text r)]>
         {[default "embedding" embedding_key := VArray (_embedding r)]});
  get_azuremongodb_similarity_query := λ e k l,
    mkDemoPipeline "$search" e k None l;
  get_mongodbatlas_similarity_query := λ e k c l,
    mkDemoPipeline "$vectorSearch" e k (Some c) l;
  get_mongodb_resources := λ connection_string database_name,
    (mkMongoClient connection_string, mkDatabase database_name);
|}.

Definition uuids (n : nat) : string :=
  match n with
  | O => "7d1f"
  | S O => "a02c"
  | _ => "e5b9"
  end.

Definition world (s : gmap string (gmap string Collection)) : @World (list Z) DemoPipeline :=
  mkWorld s [] [] uuids 0%nat 0%nat (λ p ds, take (Z.to_nat (limit p)) ds).


Definition record (i t : string) (e : list Z) : @MemoryRecord (list Z) :=
  mkMemoryRecord (Some i) t e.

Definition db : Database := mkDatabase "memory".
Definition coll : CollectionHandle := mkCollectionHandle db "notes".

(** A store as [__init__] leaves it, for the given dialect and batch
    size. *)
Definition store (api_type : option string) (batch : Z) : Instance :=
  (__init__ (U:=utils) class_attributes 3 (Some "mongodb://localhost")
     (Some "memory") api_type (Some "embedding") (Some "notes")
     (Some "vectorSearchIndex") batch None (world ∅)).1.2.

(** A server whose collection ["notes"] holds the given documents and no
    index. *)
Definition server_with (docs : list (gmap string (@Value (list Z)))) :
    gmap string (gmap string Collection) :=
  {[ "memory" := {[ "notes" := mkCollection docs [] ]} ]}.

Definition doc_of (i t : string) (e : list Z) : gmap string (@Value (list Z)) :=
  memory_record_to_mongodb_record (Utils:=utils) (record i t e) (Some "embedding").

(** Two stored notes, ["a"] and ["b"]. *)
Definition stocked : gmap string (gmap string Collection) :=
  server_with [doc_of "a" "first" [1; 0; 0]; doc_of "b" "second" [0; 1; 0]].

(** The two notes again, in a collection that carries the search index. *)
Definition indexed : gmap string (gmap string Collection) :=
  {[ "memory" :=
       {[ "notes" :=
            mkCollection
              [doc_of "a" "first" [1; 0; 0]; doc_of "b" "second" [0; 1; 0]]
              [mkIndexDoc "vectorSearchIndex" None] ]} ]}.

End Demo.

(** * Properties *)

Section Properties.

Context {ndarray Pipeline : Type} `{!EqDecision ndarray}.
Context {U : @Utils ndarray Pipeline}.

Local Abbreviation Val := (@Value ndarray).
Local Abbreviation Document := (gmap string (@Value ndarray)).

Implicit Types (w : @World ndarray Pipeline) (self : Instance).
Implicit Types (c : CollectionHandle).
Implicit Types (docs : list Document) (record : @MemoryRecord ndarray).

(** Unfolds the monad operations in the goal. *)
Ltac monad_run := unfold mbind, M_bind, mret, M_ret, raise; simpl.

(** ** The world accessors *)

Lemma db_state_set_db w d st : db_state (set_db w d st) d = st.
Proof. unfold db_state, set_db. simpl. by rewrite lookup_insert_eq. Qed.

Lemma coll_state_set_coll w c st : coll_state (set_coll w c st) c = st.
Proof.
  unfold coll_state, set_coll. rewrite db_state_set_db.
  by rewrite lookup_insert_eq.
Qed.

Lemma coll_docs_set_docs w c docs : coll_docs (set_docs w c docs) c = docs.
Proof. unfold coll_docs, set_docs. by rewrite coll_state_set_coll. Qed.

Lemma indexes_set_docs w c docs :
  indexes (coll_state (set_docs w c docs) c) = indexes (coll_state w c).
Proof. unfold set_docs. by rewrite coll_state_set_coll. Qed.

Lemma coll_docs_log w c call : coll_docs (log w call) c = coll_docs w c.
Proof. reflexivity. Qed.

Lemma trace_set_docs w c docs : trace (set_docs w c docs) = trace w.
Proof. reflexivity. Qed.

Lemma trace_log w call : trace (log w call) = trace w ++ [call].
Proof. reflexivity. Qed.

Lemma db_state_log w d call : db_state (log w call) d = db_state w d.
Proof. reflexivity. Qed.

(** ** The list of collection names *)

Lemma elem_of_collection_names {A : Type} (m : gmap string A) (n : string) :
  n ∈ map fst (map_to_list m) ↔ is_Some (m !! n).
Proof.
  split.
  - intros Hin. apply list_elem_of_fmap in Hin as [[k v] [-> Hkv]].
    apply elem_of_map_to_list in Hkv. by exists v.
  - intros [v Hv]. apply list_elem_of_fmap. exists (n, v). split; [done|].
    by apply elem_of_map_to_list.
Qed.

Lemma does_collection_exist_async_run self d n w :
  _database self = Some d →
  does_collection_exist_async self n w
  = (Ok (bool_decide (is_Some (db_state w d !! n))),
     log w (Call_list_collection_names d)).
Proof.
  intros Hd. unfold does_collection_exist_async. rewrite Hd. simpl.
  unfold mbind, M_bind, list_collection_names. simpl.
  case_bool_decide as Hin; rewrite elem_of_collection_names in Hin.
  - by rewrite bool_decide_eq_true_2.
  - by rewrite bool_decide_eq_false_2.
Qed.

(** ** Loops whose body only computes *)

Lemma for_cons {A S : Type} (x : A) (xs : list A) (body : A → S → M S) (s : S) w :
  for_ (x :: xs) body s w
  = match body x s w with
    | (Ok s', w') => for_ xs body s' w'
    | (Raise e, w') => (Raise e, w')
    end.
Proof. reflexivity. Qed.

Lemma for_pure {A S : Type} (xs : list A) (body : A → S → M S) (f : S → A → S) (s : S) w :
  (∀ x s w, body x s w = (Ok (f s x), w)) →
  for_ xs body s w = (Ok (foldl f s xs), w).
Proof.
  intros Hbody. revert s. induction xs as [|x xs IH]; intros s; [done|].
  simpl. unfold mbind, M_bind. rewrite Hbody. apply IH.
Qed.

Lemma foldl_snoc_map {A B : Type} (g : A → B) (xs : list A) (acc : list B) :
  foldl (λ acc x, acc ++ [g x]) acc xs = acc ++ map g xs.
Proof.
  revert acc. induction xs as [|x xs IH]; intros acc; simpl.
  - by rewrite app_nil_r.
  - rewrite IH. by rewrite <- app_assoc.
Qed.

(** ** Construction *)

(** [__init__] never touches the world, and the error it is meant to raise
    for a missing index is never raised: the test is made on the coroutine
    object, which is truthy whatever the index catalogue holds. *)
Lemma init_world_and_missing_index self vector_size connection_string
    database_name api_type embedding_key collection_name index_name batch
    logger w :
  let out := __init__ self vector_size connection_string database_name
               api_type embedding_key collection_name index_name batch logger w in
  out.2 = w ∧ is_missing_index_error out.1.1 = false.
Proof.
  unfold __init__. case_bool_decide; [done|].
  destruct embedding_key; [|done]. destruct database_name as [dn|]; [|done].
  destruct collection_name as [cn|]; [|done]. simpl.
  by destruct (get_mongodb_resources connection_string dn).
Qed.

(** What a construction with accepted arguments leaves in the object. *)
Lemma init_accepted self vector_size connection_string database_name
    api_type embedding_key collection_name index_name batch logger w dn cn :
  0 < vector_size →
  is_Some embedding_key →
  database_name = Some dn →
  collection_name = Some cn →
  let out := __init__ self vector_size connection_string database_name
               api_type embedding_key collection_name index_name batch logger w in
  let resources := get_mongodb_resources connection_string dn in
  out.1.1 = Ok tt
  ∧ _database out.1.2 = Some resources.2
  ∧ _collection out.1.2 = Some (mkCollectionHandle resources.2 cn)
  ∧ _api_type out.1.2 = api_type
  ∧ _embedding_key out.1.2 = embedding_key
  ∧ _vector_size out.1.2 = Some vector_size
  ∧ _index_name out.1.2 = index_name
  ∧ batch_size out.1.2 = Some batch.
Proof.
  intros Hv [ek ->] -> ->. unfold __init__.
  rewrite bool_decide_eq_false_2 by lia. simpl.
  by destruct (get_mongodb_resources connection_string dn).
Qed.

Lemma rejected_arguments_false vector_size embedding_key database_name collection_name :
  rejected_arguments vector_size embedding_key database_name collection_name = false →
  0 < vector_size ∧ is_Some embedding_key
  ∧ (∃ dn, database_name = Some dn) ∧ (∃ cn, collection_name = Some cn).
Proof.
  unfold rejected_arguments. intros Hr.
  repeat (apply orb_false_elim in Hr as [Hr ?]).
  repeat match goal with
         | H : bool_decide _ = false |- _ => apply bool_decide_eq_false in H
         end.
  split; [lia|]. split; [by destruct embedding_key|].
  split; [destruct database_name | destruct collection_name]; naive_solver.
Qed.

(** C3 (as amended): [__init__] raises a configuration error, one of the
    four [ValueError]s of its guards, exactly when the dimension is not
    positive or one of [embedding_key], [database_name], [collection_name]
    is [None]; an empty embedding key is not among these.  When it does,
    the object keeps the attributes it had and the world is as it was. *)
Theorem init_configuration_error self vector_size connection_string
    database_name api_type embedding_key collection_name index_name batch
    logger w :
  let out := __init__ self vector_size connection_string database_name
               api_type embedding_key collection_name index_name batch logger w in
  is_configuration_error out.1.1
  = rejected_arguments vector_size embedding_key database_name collection_name
  ∧ (if is_configuration_error out.1.1 then out.1.2 = self ∧ out.2 = w
     else True).
Proof.
  unfold __init__, rejected_arguments.
  case_bool_decide; [done|].
  destruct embedding_key; [|done]. destruct database_name as [dn|]; [|done].
  destruct collection_name as [cn|]; [|done]. simpl.
  by destruct (get_mongodb_resources connection_string dn).
Qed.

(** ** Deleting *)

Lemma find_first_None_delete_first (q : Document) docs :
  find_first q docs = None → delete_first q docs = docs.
Proof.
  unfold find_first. induction docs as [|x docs IH]; [done|].
  rewrite filter_cons. simpl. destruct (decide (Matches q x)); [done|].
  intros Hn. by rewrite IH.
Qed.

(** [delete_first] takes out one matching document or nothing. *)
Lemma delete_first_at_most_one (q : Document) docs :
  delete_first q docs = docs
  ∨ ∃ before x after,
      docs = before ++ x :: after ∧ Matches q x
      ∧ delete_first q docs = before ++ after.
Proof.
  induction docs as [|y docs IH]; [by left|]. simpl.
  destruct (decide (Matches q y)) as [Hm|Hm].
  - right. by exists [], y, docs.
  - destruct IH as [->|(before & x & after & -> & Hx & ->)]; [by left|].
    right. by exists (y :: before), x, after.
Qed.

Lemma delete_one_run c (q : Document) w :
  ∃ w', delete_one c q w = (Ok tt, w')
        ∧ trace w' = trace w ++ [Call_delete_one c q]
        ∧ coll_docs w' c = delete_first q (coll_docs w c).
Proof.
  unfold delete_one. simpl. rewrite coll_docs_log.
  destruct (find_first q (coll_docs w c)) eqn:Hf.
  - eexists. split; [done|]. split; [done|]. by rewrite coll_docs_set_docs.
  - eexists. split; [done|]. split; [done|].
    by rewrite coll_docs_log, find_first_None_delete_first.
Qed.

Lemma remove_async_run self d collection_name key w :
  _database self = Some d →
  remove_async self collection_name key w
  = delete_one (mkCollectionHandle d collection_name) (by_id key) w.
Proof. intros Hd. unfold remove_async. by rewrite Hd. Qed.

Lemma remove_loop_run c (keys : list string) w :
  ∃ w', for_ keys (λ key (_ : unit), delete_one c (by_id key)) tt w = (Ok tt, w')
        ∧ trace w' = trace w ++ map (λ key, Call_delete_one c (by_id key)) keys
        ∧ coll_docs w' c
          = foldl (λ docs key, delete_first (by_id key) docs) (coll_docs w c) keys.
Proof.
  revert w. induction keys as [|key keys IH]; intros w.
  - exists w. simpl. by rewrite app_nil_r.
  - simpl. unfold mbind, M_bind.
    destruct (delete_one_run c (by_id key) w) as (w1 & -> & Ht & Hdocs).
    destruct (IH w1) as (w2 & Hrun & Ht2 & Hdocs2). exists w2.
    split; [done|]. rewrite Ht2, Ht, Hdocs2, Hdocs.
    by rewrite <- app_assoc.
Qed.

(** C8: [remove_async] issues one [delete_one] for the key; it never raises,
    takes out of the collection one document carrying that id or, when
    there is none, leaves the documents as they are.  [remove_batch_async]
    never raises either and issues one [delete_one] per key, in order;
    it is the removal of the first key followed by the removal of the rest,
    each on the world the previous one left (nothing spans the batch). *)
Theorem remove_contract self d collection_name key (keys : list string) w :
  _database self = Some d →
  let c := mkCollectionHandle d collection_name in
  (∃ w', remove_async self collection_name key w = (Ok tt, w')
         ∧ trace w' = trace w ++ [Call_delete_one c (by_id key)]
         ∧ coll_docs w' c = delete_first (by_id key) (coll_docs w c)
         ∧ (coll_docs w' c = coll_docs w c
            ∨ ∃ before x after,
                coll_docs w c = before ++ x :: after
                ∧ x !! SEARCH_FIELD_ID = Some (VStr key)
                ∧ coll_docs w' c = before ++ after)
         ∧ match find_first (by_id key) (coll_docs w c) with
           | Some _ => True
           | None => coll_docs w' c = coll_docs w c
           end)
  ∧ (∃ w', remove_batch_async self collection_name keys w = (Ok tt, w')
           ∧ trace w' = trace w ++ map (λ k, Call_delete_one c (by_id k)) keys
           ∧ coll_docs w' c
             = foldl (λ docs k, delete_first (by_id k) docs) (coll_docs w c) keys)
  ∧ remove_batch_async self collection_name (key :: keys) w
    = (remove_async self collection_name key;;
       remove_batch_async self collection_name keys) w.
Proof.
  intros Hd c. split; [|split].
  - rewrite (remove_async_run _ d) by done.
    destruct (delete_one_run c (by_id key) w) as (w' & Hrun & Ht & Hdocs).
    exists w'. fold c. repeat split; try done.
    + rewrite Hdocs.
      destruct (delete_first_at_most_one (by_id key) (coll_docs w c))
        as [Heq|(before & x & after & Hsplit & Hx & Hdel)]; [by left|].
      right. exists before, x, after. repeat split; try done.
      unfold by_id, Matches in Hx. by apply map_Forall_singleton in Hx.
    + destruct (find_first _ _) eqn:Hf; [done|].
      by rewrite Hdocs, find_first_None_delete_first.
  - unfold remove_batch_async. rewrite Hd. simpl. apply remove_loop_run.
  - unfold remove_batch_async, remove_async. rewrite Hd. simpl.
    unfold mbind, M_bind. simpl.
    by destruct (delete_one _ _ w) as [[[]|e] w1].
Qed.

(** ** Creating a collection *)

Lemma create_collection_async_azure self d n metric num_lists w :
  _database self = Some d →
  _api_type self = Some "azuremongodb" →
  db_state w d !! n = None →
  let spec := cosmos_index self metric num_lists in
  ∃ w', create_collection_async self n metric num_lists w = (Ok tt, w')
        ∧ db_state w' d !! n
          = Some (mkCollection [] [mkIndexDoc "vectorSearchIndex" (Some spec)])
        ∧ trace w' = trace w ++ [Call_list_collection_names d;
                                 Call_command d (createIndexes n [spec])].
Proof.
  intros Hd Hapi Habsent spec. unfold create_collection_async.
  rewrite Hapi. simpl. unfold mbind, M_bind.
  rewrite (does_collection_exist_async_run _ d) by done.
  rewrite bool_decide_eq_false_2 by (rewrite Habsent; by intros [? ?]).
  simpl. rewrite Hd. simpl. unfold command. eexists. split; [done|].
  split.
  - unfold set_coll. simpl. rewrite db_state_set_db, lookup_insert_eq.
    unfold coll_state. simpl.
    rewrite !db_state_log. by rewrite Habsent.
  - simpl. by rewrite <- app_assoc.
Qed.

Lemma create_collection_async_atlas self d n metric num_lists w :
  _database self = Some d →
  _api_type self = Some "mongodbatlas" →
  db_state w d !! n = None →
  ∃ w', create_collection_async self n metric num_lists w = (Ok tt, w')
        ∧ db_state w' d !! n = Some (mkCollection [] [])
        ∧ trace w' = trace w ++ [Call_list_collection_names d;
                                 Call_create_collection d n].
Proof.
  intros Hd Hapi Habsent. unfold create_collection_async.
  rewrite Hapi. simpl. unfold mbind, M_bind.
  rewrite (does_collection_exist_async_run _ d) by done.
  rewrite bool_decide_eq_false_2 by (rewrite Habsent; by intros [? ?]).
  simpl. rewrite Hd. simpl. unfold create_collection.
  rewrite !db_state_log, Habsent. eexists. split; [done|]. split.
  - by rewrite db_state_set_db, lookup_insert_eq.
  - simpl. by rewrite <- app_assoc.
Qed.

Lemma create_collection_async_present self d n metric num_lists w :
  _database self = Some d →
  is_Some (db_state w d !! n) →
  _api_type self = Some "azuremongodb" ∨ _api_type self = Some "mongodbatlas" →
  create_collection_async self n metric num_lists w
  = (Ok tt, log w (Call_list_collection_names d)).
Proof.
  intros Hd Hpresent Hapi. unfold create_collection_async.
  destruct Hapi as [-> | ->]; simpl; unfold mbind, M_bind;
    rewrite (does_collection_exist_async_run _ d) by done;
    by rewrite bool_decide_eq_true_2.
Qed.

Lemma create_collection_async_other self n metric num_lists w :
  _api_type self ≠ Some "azuremongodb" →
  _api_type self ≠ Some "mongodbatlas" →
  create_collection_async self n metric num_lists w = (Ok tt, w).
Proof.
  intros Hazure Hatlas. unfold create_collection_async.
  by rewrite !bool_decide_eq_false_2.
Qed.

(** C9: on a store with a database handle, for a collection that does not
    exist yet: under the Cosmos dialect one [createIndexes] command creates
    the collection together with one index, of kind ["vector-ivf"], with
    the given number of lists, the given similarity and the vector size of
    the store; under the Atlas dialect one [create_collection] call creates
    the collection with no index and no command is sent.  A collection that
    exists is left alone under both dialects. *)
Theorem create_collection_contract self d n metric num_lists w :
  _database self = Some d →
  let spec := cosmos_index self metric num_lists in
  (_api_type self = Some "azuremongodb" → db_state w d !! n = None →
   kind (cosmosSearchOptions spec) = "vector-ivf"
   ∧ numLists (cosmosSearchOptions spec) = num_lists
   ∧ similarity (cosmosSearchOptions spec) = metric
   ∧ dimensions (cosmosSearchOptions spec) = _vector_size self
   ∧ ∃ w', create_collection_async self n metric num_lists w = (Ok tt, w')
           ∧ db_state w' d !! n
             = Some (mkCollection [] [mkIndexDoc "vectorSearchIndex" (Some spec)])
           ∧ trace w' = trace w ++ [Call_list_collection_names d;
                                    Call_command d (createIndexes n [spec])])
  ∧ (_api_type self = Some "mongodbatlas" → db_state w d !! n = None →
     ∃ w', create_collection_async self n metric num_lists w = (Ok tt, w')
           ∧ db_state w' d !! n = Some (mkCollection [] [])
           ∧ trace w' = trace w ++ [Call_list_collection_names d;
                                    Call_create_collection d n])
  ∧ (_api_type self = Some "azuremongodb" ∨ _api_type self = Some "mongodbatlas" →
     is_Some (db_state w d !! n) →
     ∃ w', create_collection_async self n metric num_lists w = (Ok tt, w')
           ∧ server w' = server w).
Proof.
  intros Hd spec. split; [|split].
  - intros Hapi Habsent. repeat split.
    by apply create_collection_async_azure.
  - intros Hapi Habsent. by apply create_collection_async_atlas.
  - intros Hapi Hpresent. exists (log w (Call_list_collection_names d)).
    split; [by apply create_collection_async_present|reflexivity].
Qed.

(** ** Similarity search *)

Lemma get_nearest_matches_async_run self d collection_name (e : ndarray) k w :
  _database self = Some d →
  let c := mkCollectionHandle d collection_name in
  let p := search_pipeline self collection_name e k in
  get_nearest_matches_async self collection_name e k w
  = (Ok (map (λ doc, dict_to_memory_record doc (_embedding_key self))
           (search w p (coll_docs w c))),
     log w (Call_aggregate c p)).
Proof.
  intros Hd c p. unfold get_nearest_matches_async. rewrite Hd.
  unfold aggregate. monad_run.
  rewrite (for_pure _ _ (λ acc doc, acc ++ [dict_to_memory_record doc (_embedding_key self)]))
    by done.
  by rewrite foldl_snoc_map.
Qed.



(** ** Lookup by keys *)

Lemma find_loop_run self c (keys : list string) docs :
  ∀ (acc : list MemoryRecord) w,
    coll_docs w c = docs →
    ∃ w', for_ keys
            (λ key search_results,
               result_cursor ← find c {[SEARCH_FIELD_ID := VStr key]};
               for_ result_cursor
                 (λ document search_results,
                    mret (search_results
                          ++ [dict_to_memory_record document (_embedding_key self)]))
                 search_results)
            acc w
          = (Ok (acc ++ flat_map
                          (λ key, map (λ doc, dict_to_memory_record doc (_embedding_key self))
                                    (filter (Matches (by_id key)) docs))
                          keys),
             w')
          ∧ server w' = server w
          ∧ trace w' = trace w ++ map (λ key, Call_find c (by_id key)) keys.
Proof.
  induction keys as [|key keys IH]; intros acc w Hdocs.
  - exists w. simpl. by rewrite !app_nil_r.
  - simpl. unfold mbind at 1, M_bind at 1. unfold mbind at 1, M_bind at 1.
    unfold find at 1.
    rewrite (for_pure _ _ (λ acc doc, acc ++ [dict_to_memory_record doc (_embedding_key self)]))
      by done.
    rewrite foldl_snoc_map, Hdocs.
    destruct (IH (acc ++ map (λ doc, dict_to_memory_record doc (_embedding_key self))
                          (filter (Matches {[SEARCH_FIELD_ID := VStr key]}) docs))
                 (log w (Call_find c {[SEARCH_FIELD_ID := VStr key]})))
      as (w' & Hrun & Hserver & Htrace); [done|].
    exists w'. rewrite Hrun. split; [by rewrite <- app_assoc|].
    split; [done|]. rewrite Htrace. simpl. by rewrite <- app_assoc.
Qed.

Lemma filter_at_most_one {A : Type} (P : A → Prop) `{!∀ x, Decision (P x)} (l : list A) :
  (length (filter P l) ≤ 1)%nat →
  filter P l = option_list (head (filter P l)).
Proof. destruct (filter P l) as [|x [|y t]]; simpl; [done|done|lia]. Qed.

Lemma flat_map_at_most_one {A B C : Type} (f : A → list B) (g : B → C) (l : list A) :
  (∀ x, x ∈ l → length (f x) ≤ 1)%nat →
  flat_map (λ x, map g (f x)) l = omap (λ x, g <$> head (f x)) l.
Proof.
  induction l as [|x l IH]; intros Hone; [done|]. simpl.
  rewrite IH by (intros y Hy; apply Hone; by right).
  pose proof (Hone x ltac:(by left)) as Hx.
  destruct (f x) as [|y [|z t]]; simpl in *; [done|done|lia].
Qed.

Lemma omap_length_le {A B : Type} (f : A → option B) (l : list A) :
  (length (omap f l) ≤ length l)%nat.
Proof.
  induction l as [|x l IH]; [done|]. unfold omap in IH. simpl.
  destruct (f x); simpl; lia.
Qed.

(** C6: on a collection holding at most one document per requested key,
    [get_batch_async] never raises and returns, key by key in the order of
    [keys], the record of the document of each key that has one; a key
    without a document contributes nothing, and the result is no longer
    than [keys].  It issues one [find] per key and changes nothing on the
    server. *)
Theorem get_batch_contract self d collection_name (keys : list string) w :
  _database self = Some d →
  let c := mkCollectionHandle d collection_name in
  (∀ key, key ∈ keys →
     length (filter (Matches (by_id key)) (coll_docs w c)) ≤ 1)%nat →
  ∃ records w',
    get_batch_async self collection_name keys w = (Ok records, w')
    ∧ records
      = omap (λ key, (λ doc, dict_to_memory_record doc (_embedding_key self))
                       <$> find_first (by_id key) (coll_docs w c)) keys
    ∧ (length records ≤ length keys)%nat
    ∧ server w' = server w
    ∧ trace w' = trace w ++ map (λ key, Call_find c (by_id key)) keys.
Proof.
  intros Hd c Hone. unfold get_batch_async. rewrite Hd. simpl.
  destruct (find_loop_run self c keys (coll_docs w c) [] w eq_refl)
    as (w' & Hrun & Hserver & Htrace).
  eexists _, w'. split; [exact Hrun|]. simpl.
  split; [|split; [|done]].
  - by apply (flat_map_at_most_one (λ key, filter (Matches (by_id key)) (coll_docs w c))).
  - rewrite (flat_map_at_most_one (λ key, filter (Matches (by_id key)) (coll_docs w c))) by done.
    apply omap_length_le.
Qed.

(** ** Upserting: the driver calls *)

Lemma ensure_id_run record w :
  ensure_id record w = (Ok (with_id w record), after_id w record).
Proof.
  unfold ensure_id, with_id, after_id. by destruct (truthy_str (_id record)).
Qed.

Lemma id_with_id w record :
  _id (with_id w record) = assigned_id w record.
Proof.
  unfold with_id, assigned_id. by destruct (truthy_str (_id record)).
Qed.

Lemma coll_docs_after_id w c record :
  coll_docs (after_id w record) c = coll_docs w c.
Proof. unfold after_id. by destruct (truthy_str (_id record)). Qed.

Lemma trace_after_id w record :
  trace (after_id w record) = trace w.
Proof. unfold after_id. by destruct (truthy_str (_id record)). Qed.

Lemma find_first_Some (q : Document) docs found :
  find_first q docs = Some found → found ∈ docs ∧ Matches q found.
Proof.
  unfold find_first. intros Hh. apply head_Some_elem_of in Hh.
  by apply list_elem_of_filter in Hh as [? ?].
Qed.

Lemma find_first_None (q : Document) docs :
  find_first q docs = None ↔ ∀ found, found ∈ docs → ¬ Matches q found.
Proof.
  unfold find_first. rewrite head_None. split.
  - intros Hnil found Hin Hm.
    assert (found ∈ filter (Matches q) docs) as Hf by by apply list_elem_of_filter.
    rewrite Hnil in Hf. by apply not_elem_of_nil in Hf.
  - intros Hno. destruct (filter (Matches q) docs) as [|x l] eqn:Hf; [done|].
    assert (x ∈ filter (Matches q) docs) as Hx by (rewrite Hf; by left).
    apply list_elem_of_filter in Hx as [Hm Hin]. by destruct (Hno x).
Qed.

Lemma Matches_singleton (k : string) (v : Val) (doc : Document) :
  Matches {[k := v]} doc ↔ doc !! k = Some v.
Proof. unfold Matches. by rewrite map_Forall_singleton. Qed.

(** A document found through a one-field query is not the empty dict, so
    the test [if existing_document:] succeeds on it. *)
Lemma truthy_doc_found (k : string) (v : Val) docs found :
  find_first {[k := v]} docs = Some found → truthy_doc (Some found) = true.
Proof.
  intros Hf. apply find_first_Some in Hf as [_ Hm].
  apply Matches_singleton in Hm. simpl.
  rewrite bool_decide_eq_false_2; [done|]. intros ->.
  by rewrite lookup_empty in Hm.
Qed.

Lemma update_one_found c (q fields : Document) w found :
  find_first q (coll_docs w c) = Some found →
  ∃ res w', update_one c q (USet fields) w = (Ok res, w')
            ∧ trace w' = trace w ++ [Call_update_one c q (USet fields)]
            ∧ coll_docs w' c = update_first q (λ d, fields ∪ d) (coll_docs w c)
            ∧ uuid_next w' = uuid_next w ∧ uuid_pool w' = uuid_pool w
            ∧ oid_next w' = oid_next w ∧ stdout w' = stdout w.
Proof.
  intros Hf. unfold update_one. rewrite coll_docs_log, Hf.
  eexists _, _. split; [done|]. by rewrite coll_docs_set_docs.
Qed.

Lemma assign_object_ids_length n docs :
  length (assign_object_ids n docs).1 = length docs.
Proof.
  revert n. induction docs as [|x docs IH]; intros n; [done|]. simpl.
  destruct (x !! "_id").
  - specialize (IH n). destruct (assign_object_ids n docs). simpl in *. by rewrite IH.
  - specialize (IH (S n)). destruct (assign_object_ids (S n) docs). simpl in *.
    by rewrite IH.
Qed.

Lemma insert_many_run c docs w :
  docs ≠ [] →
  let stored := (assign_object_ids (oid_next w) docs).1 in
  ∃ w', insert_many c docs w
        = (Ok (mkInsertManyResult (map (λ d, default VNone (d !! "_id")) stored)), w')
        ∧ trace w' = trace w ++ [Call_insert_many c docs]
        ∧ coll_docs w' c = coll_docs w c ++ stored
        ∧ uuid_next w' = uuid_next w ∧ uuid_pool w' = uuid_pool w.
Proof.
  intros Hne stored. unfold insert_many. destruct docs as [|x docs]; [done|].
  unfold stored. change (oid_next (log w _)) with (oid_next w).
  destruct (assign_object_ids (oid_next w) (x :: docs)) as [docs' n'].
  eexists. split; [done|]. simpl. split; [done|].
  split; [|done].
  change (coll_docs (with_oid_next ?w0 n') c) with (coll_docs w0 c).
  by rewrite coll_docs_set_docs.
Qed.

(** ** Upserting: one iteration *)

Lemma with_id_truthy w record :
  truthy_str (_id record) = true →
  with_id w record = record ∧ after_id w record = w.
Proof. intros Ht. unfold with_id, after_id. by rewrite Ht. Qed.

(** The record has a document: the update path. *)
Lemma upsert_body_found self c record (buf : list Document) (ins : list Val) w found :
  let r := with_id w record in
  find_first (query_of r) (coll_docs w c) = Some found →
  ∃ w', upsert_batch_body self c record (buf, ins) w = (Ok (buf, ins), w')
        ∧ trace w' = trace w ++ [Call_find_one c (query_of r);
                                 Call_update_one c (query_of r) (USet (document_of self r))]
        ∧ coll_docs w' c
          = update_first (query_of r) (λ doc, document_of self r ∪ doc) (coll_docs w c).
Proof.
  intros r Hf. unfold upsert_batch_body. unfold mbind at 1, M_bind at 1.
  rewrite ensure_id_run. fold r.
  unfold mbind at 1, M_bind at 1. unfold find_one at 1.
  rewrite coll_docs_after_id. fold (query_of r). rewrite Hf.
  rewrite (truthy_doc_found _ _ _ _ Hf).
  destruct (update_one_found c (query_of r) (document_of self r)
              (log (after_id w record) (Call_find_one c (query_of r))) found)
    as (res & w1 & Hrun & Ht & Hdocs & _).
  { by rewrite coll_docs_log, coll_docs_after_id. }
  unfold mbind at 1, M_bind at 1. fold (document_of self r). rewrite Hrun.
  rewrite coll_docs_log, coll_docs_after_id in Hdocs.
  rewrite trace_log, trace_after_id in Ht.
  case_bool_decide; monad_run.
  - eexists. split; [done|]. simpl. split; [|done].
    rewrite Ht. by rewrite <- app_assoc.
  - eexists. split; [done|]. split; [|done].
    rewrite Ht. by rewrite <- app_assoc.
Qed.

(** The record has no document: it joins the buffer, and the buffer is
    flushed when its length equals [DEFAULT_INSERT_BATCH_SIZE]. *)
Lemma upsert_body_missing self c record (buf : list Document) (ins : list Val) w :
  let r := with_id w record in
  truthy_doc (find_first (query_of r) (coll_docs w c)) = false →
  let buf1 := buf ++ [document_of self r] in
  let stored := (assign_object_ids (oid_next w) buf1).1 in
  let flush := bool_decide (Z.of_nat (length buf1) = DEFAULT_INSERT_BATCH_SIZE) in
  ∃ w', upsert_batch_body self c record (buf, ins) w
        = (Ok (if flush
               then ([], ins ++ map (λ doc, default VNone (doc !! "_id")) stored)
               else (buf1, ins)), w')
        ∧ trace w' = trace w ++ Call_find_one c (query_of r)
                               :: (if flush then [Call_insert_many c buf1] else [])
        ∧ coll_docs w' c = coll_docs w c ++ (if flush then stored else [])
        ∧ uuid_pool w' = uuid_pool w.
Proof.
  intros r Hf buf1 stored flush. unfold upsert_batch_body.
  unfold mbind at 1, M_bind at 1. rewrite ensure_id_run. fold r.
  unfold mbind at 1, M_bind at 1. unfold find_one at 1.
  rewrite coll_docs_after_id. fold (query_of r). rewrite Hf.
  fold (document_of self r). fold buf1. fold flush.
  destruct flush eqn:Hflush.
  - assert (oid_next (log (after_id w record) (Call_find_one c (query_of r)))
            = oid_next w) as Hoid.
    { change (oid_next (after_id w record) = oid_next w).
      unfold after_id. by destruct (truthy_str (_id record)). }
    pose proof (insert_many_run c buf1
                  (log (after_id w record) (Call_find_one c (query_of r)))) as Hins.
    cbv zeta in Hins. rewrite Hoid in Hins. fold stored in Hins.
    destruct Hins as (w1 & Hrun & Ht & Hdocs & _ & Hpool).
    { unfold buf1. by destruct buf. }
    unfold mbind, M_bind. rewrite Hrun. simpl.
    eexists. split; [done|].
    rewrite Ht, Hdocs, trace_log, trace_after_id, coll_docs_log, coll_docs_after_id.
    split; [by rewrite <- app_assoc|]. split; [done|].
    rewrite Hpool. simpl. unfold after_id. by destruct (truthy_str (_id record)).
  - monad_run. eexists. split; [done|].
    rewrite trace_log, coll_docs_log, trace_after_id, coll_docs_after_id, app_nil_r.
    split; [done|]. split; [done|].
    unfold after_id. by destruct (truthy_str (_id record)).
Qed.

(** [upsert_batch_async] on a store with a database handle: the loop, then
    the flush of what is left in the buffer. *)
Lemma upsert_batch_async_run self d collection_name (records : list MemoryRecord) w :
  _database self = Some d →
  let c := mkCollectionHandle d collection_name in
  upsert_batch_async self collection_name records w
  = match for_ records (upsert_batch_body self c) ([], []) w with
    | (Ok (buf, ins), w1) =>
        match buf with
        | _ :: _ =>
            match insert_many c buf w1 with
            | (Ok result, w2) => (Ok (ins ++ inserted_ids result), w2)
            | (Raise e, w2) => (Raise e, w2)
            end
        | [] => (Ok ins, w1)
        end
    | (Raise e, w1) => (Raise e, w1)
    end.
Proof.
  intros Hd c. unfold upsert_batch_async. rewrite Hd. monad_run. fold c.
  destruct (for_ records (upsert_batch_body self c) ([], []) w)
    as [[[buf ins]|e] w1]; [|done].
  by destruct buf.
Qed.

(** ** Upserting: the id column *)

Lemma find_first_ids (v : Val) docs :
  is_Some (find_first {[SEARCH_FIELD_ID := v]} docs) ↔ Some v ∈ ids_of docs.
Proof.
  unfold ids_of. rewrite list_elem_of_fmap. split.
  - intros [found Hf]. apply find_first_Some in Hf as [Hin Hm].
    apply Matches_singleton in Hm. by exists found.
  - intros (doc & Hv & Hin).
    destruct (find_first {[SEARCH_FIELD_ID := v]} docs) eqn:Hf; [done|].
    rewrite find_first_None in Hf. destruct (Hf doc Hin).
    by apply Matches_singleton.
Qed.

Lemma ids_of_update_first (q : Document) (f : Document → Document) docs :
  (∀ doc, Matches q doc → f doc !! SEARCH_FIELD_ID = doc !! SEARCH_FIELD_ID) →
  ids_of (update_first q f docs) = ids_of docs.
Proof.
  intros Hf. unfold ids_of. induction docs as [|x docs IH]; [done|]. simpl.
  destruct (decide (Matches q x)); simpl.
  - by rewrite Hf.
  - by rewrite IH.
Qed.

Lemma find_first_update_first_same (q : Document) (f : Document → Document) docs found :
  find_first q docs = Some found →
  Matches q (f found) →
  find_first q (update_first q f docs) = Some (f found).
Proof.
  unfold find_first. induction docs as [|x docs IH]; [done|]. simpl.
  rewrite filter_cons. destruct (decide (Matches q x)) as [Hm|Hm]; simpl.
  - intros [= ->] Hfm. rewrite filter_cons. by rewrite decide_True.
  - intros Hfound Hfm. rewrite filter_cons, decide_False by done. by apply IH.
Qed.

Lemma find_first_update_first_other (q q' : Document) (f : Document → Document) docs :
  (∀ doc, Matches q' doc → ¬ Matches q doc ∧ ¬ Matches q (f doc)) →
  find_first q (update_first q' f docs) = find_first q docs.
Proof.
  intros Hother. unfold find_first. induction docs as [|x docs IH]; [done|].
  simpl. destruct (decide (Matches q' x)) as [Hm|Hm].
  - destruct (Hother x Hm) as [Hx Hfx]. by rewrite !filter_cons, !decide_False.
  - rewrite !filter_cons. destruct (decide (Matches q x)); [done|]. apply IH.
Qed.

Section IdField.

(** The mapping of [.utils] stores the id of a record under the field the
    connector queries by. *)
Hypothesis id_field : ∀ record embedding_key,
  memory_record_to_mongodb_record record embedding_key !! SEARCH_FIELD_ID
  = Some (id_value (_id record)).

Lemma set_keeps_id self record (doc : Document) :
  Matches (query_of record) doc →
  (document_of self record ∪ doc) !! SEARCH_FIELD_ID = doc !! SEARCH_FIELD_ID.
Proof.
  intros Hm. apply Matches_singleton in Hm. rewrite Hm.
  apply lookup_union_Some_l. apply id_field.
Qed.

(** The loop of [upsert_batch_async] over records that all have a document:
    nothing is buffered, every record costs one [find_one] and one
    [update_one], and the id column of the collection stays as it was. *)
Lemma upsert_loop_existing self c (records : list MemoryRecord) :
  ∀ (buf : list Document) (ins : list Val) w,
    Forall (λ r, truthy_str (_id r) = true
                 ∧ Some (id_value (_id r)) ∈ ids_of (coll_docs w c)) records →
    ∃ w', for_ records (upsert_batch_body self c) (buf, ins) w = (Ok (buf, ins), w')
          ∧ trace w' = trace w
                       ++ flat_map (λ r, [Call_find_one c (query_of r);
                                          Call_update_one c (query_of r)
                                            (USet (document_of self r))]) records
          ∧ coll_docs w' c
            = foldl (λ docs r, update_first (query_of r)
                                 (λ doc, document_of self r ∪ doc) docs)
                (coll_docs w c) records
          ∧ ids_of (coll_docs w' c) = ids_of (coll_docs w c).
Proof.
  induction records as [|r records IH]; intros buf ins w Hall.
  - exists w. simpl. by rewrite app_nil_r.
  - apply Forall_cons in Hall as [[Htruthy Hpresent] Hall].
    apply find_first_ids in Hpresent as [found Hfound].
    destruct (with_id_truthy w r Htruthy) as [Hr _].
    destruct (upsert_body_found self c r buf ins w found) as (w1 & Hrun & Ht & Hdocs).
    { by rewrite Hr. }
    rewrite Hr in Ht, Hdocs.
    assert (ids_of (coll_docs w1 c) = ids_of (coll_docs w c)) as Hids.
    { rewrite Hdocs. apply ids_of_update_first. intros doc. apply set_keeps_id. }
    destruct (IH buf ins w1) as (w2 & Hrun2 & Ht2 & Hdocs2 & Hids2).
    { eapply Forall_impl; [exact Hall|]. intros r' [? ?]. by rewrite Hids. }
    exists w2. rewrite for_cons, Hrun.
    split; [done|]. split; [|split].
    + rewrite Ht2, Ht. simpl. by rewrite <- app_assoc.
    + by rewrite Hdocs2, Hdocs.
    + by rewrite Hids2, Hids.
Qed.

(** After the updates of a batch without repeated ids, the document of
    each record carries every field written for that record. *)
Lemma updated_documents self (records : list MemoryRecord) :
  ∀ docs,
    NoDup (map _id records) →
    Forall (λ r, truthy_str (_id r) = true
                 ∧ Some (id_value (_id r)) ∈ ids_of docs) records →
    Forall (λ r, ∃ doc,
              find_first (query_of r)
                (foldl (λ docs r, update_first (query_of r)
                                    (λ doc, document_of self r ∪ doc) docs)
                   docs records) = Some doc
              ∧ document_of self r ⊆ doc) records.
Proof.
  induction records as [|r records IH]; intros docs Hnodup Hall; [done|].
  apply NoDup_cons in Hnodup as [Hfresh Hnodup].
  apply Forall_cons in Hall as [[Htruthy Hpresent] Hall].
  assert (ids_of (update_first (query_of r) (λ doc, document_of self r ∪ doc) docs)
          = ids_of docs) as Hids.
  { apply ids_of_update_first. intros doc. apply set_keeps_id. }
  apply Forall_cons. split.
  - apply find_first_ids in Hpresent as [found Hfound]. simpl.
    exists (document_of self r ∪ found). split; [|apply map_union_subseteq_l].
    assert (∀ rest docs1,
              Forall (λ r', truthy_str (_id r') = true) rest →
              _id r ∉ map _id rest →
              find_first (query_of r)
                (foldl (λ docs r, update_first (query_of r)
                                    (λ doc, document_of self r ∪ doc) docs)
                   docs1 rest)
              = find_first (query_of r) docs1) as Hkeep.
    { clear -Htruthy id_field. induction rest as [|r' rest IHrest];
        intros docs1 Hrest Hnotin; [done|].
      apply Forall_cons in Hrest as [Hr' Hrest]. simpl.
      rewrite IHrest; [|done|by apply not_elem_of_cons in Hnotin as [_ ?]].
      apply find_first_update_first_other. intros doc Hm.
      apply not_elem_of_cons in Hnotin as [Hne _].
      assert ((id_value (_id r) : Val) ≠ id_value (_id r')) as Hvne.
      { destruct (_id r) as [i|], (_id r') as [j|]; simpl in *; congruence. }
      split; intros Hq; apply Matches_singleton in Hq.
      - apply Matches_singleton in Hm. congruence.
      - rewrite (set_keeps_id self r' doc Hm) in Hq.
        apply Matches_singleton in Hm. congruence. }
    rewrite Hkeep.
    + apply find_first_update_first_same; [done|].
      apply Matches_singleton. rewrite set_keeps_id.
      * by apply find_first_Some in Hfound as [_ ?%Matches_singleton].
      * by apply find_first_Some in Hfound as [_ ?].
    + eapply Forall_impl; [exact Hall|]. by intros r' [? ?].
    + done.
  - simpl. apply IH; [done|].
    eapply Forall_impl; [exact Hall|]. intros r' [? ?]. by rewrite Hids.
Qed.

Lemma no_insert_among_updates self c (records : list MemoryRecord) :
  filter (λ call : @Call ndarray Pipeline, is_insert_many call = true)
    (flat_map (λ r, [Call_find_one c (query_of r);
                     Call_update_one c (query_of r) (USet (document_of self r))])
       records) = [].
Proof. induction records as [|r records IH]; [done|]. simpl. exact IH. Qed.

(** C4: when every record of the batch has an id and a document carrying
    that id, [upsert_batch_async] returns the empty list and sends no
    [insert_many]; it sends one [find_one] and one [update_one] with [$set]
    per record, the collection keeps its documents' ids in place, and, for a
    batch without repeated ids, the document of each record ends up
    carrying every field written for the record.  (The mapping of [.utils]
    is taken to store the id of a record under the queried field.) *)
Theorem upsert_batch_existing self d collection_name (records : list MemoryRecord) w :
  _database self = Some d →
  let c := mkCollectionHandle d collection_name in
  Forall (λ r, truthy_str (_id r) = true
               ∧ is_Some (find_first (query_of r) (coll_docs w c))) records →
  ∃ w', upsert_batch_async self collection_name records w = (Ok [], w')
        ∧ trace w' = trace w
                     ++ flat_map (λ r, [Call_find_one c (query_of r);
                                        Call_update_one c (query_of r)
                                          (USet (document_of self r))]) records
        ∧ insert_calls_since (length (trace w)) w' = []
        ∧ ids_of (coll_docs w' c) = ids_of (coll_docs w c)
        ∧ (NoDup (map _id records) →
           Forall (λ r, ∃ doc, find_first (query_of r) (coll_docs w' c) = Some doc
                               ∧ document_of self r ⊆ doc) records).
Proof.
  intros Hd c Hall.
  assert (Forall (λ r, truthy_str (_id r) = true
                       ∧ Some (id_value (_id r)) ∈ ids_of (coll_docs w c)) records)
    as Hall'.
  { eapply Forall_impl; [exact Hall|]. intros r [? ?]. split; [done|].
    by apply find_first_ids. }
  destruct (upsert_loop_existing self c records [] [] w Hall')
    as (w' & Hrun & Ht & Hdocs & Hids).
  exists w'. rewrite (upsert_batch_async_run _ d) by done.
  fold c. rewrite Hrun. split; [done|]. split; [done|]. split; [|split; [done|]].
  - unfold insert_calls_since. rewrite Ht, drop_app_length.
    apply no_insert_among_updates.
  - intros Hnodup. rewrite Hdocs. by apply updated_documents.
Qed.

(** ** Upserting new records *)

Lemma ceil_div_flushes (q b D : Z) :
  0 < D → 0 ≤ b < D →
  ceil_div (q * D + b) D = q + (if bool_decide (b = 0) then 0 else 1).
Proof.
  intros HD Hb. unfold ceil_div. symmetry. case_bool_decide as Hz.
  - apply (Z.div_unique _ _ _ (D - 1)); lia.
  - apply (Z.div_unique _ _ _ (b - 1)); lia.
Qed.

Lemma ids_after_insert (j : string) n docs :
  Some (VStr j) ∈ ids_of (assign_object_ids n docs).1 →
  Some (VStr j) ∈ ids_of docs.
Proof.
  revert n. induction docs as [|x docs IH]; intros n; [done|]. simpl.
  destruct (x !! "_id") eqn:Hx.
  - specialize (IH n). destruct (assign_object_ids n docs) as [docs' n'].
    simpl in *. rewrite !elem_of_cons. intros [?|?]; [by left|right; by apply IH].
  - specialize (IH (S n)). destruct (assign_object_ids (S n) docs) as [docs' n'].
    simpl in *. rewrite !elem_of_cons. intros [Hhead|?]; [|right; by apply IH].
    left. destruct (decide (SEARCH_FIELD_ID = "_id")) as [Heq|Hne].
    + rewrite Heq, lookup_insert_eq in Hhead. done.
    + by rewrite lookup_insert_ne in Hhead.
Qed.

Lemma ids_of_app docs1 docs2 : ids_of (docs1 ++ docs2) = ids_of docs1 ++ ids_of docs2.
Proof. unfold ids_of. apply map_app. Qed.

Lemma id_value_ne (a b : @MemoryRecord ndarray) :
  truthy_str (_id a) = true → truthy_str (_id b) = true → _id a ≠ _id b →
  (id_value (_id a) : Val) ≠ id_value (_id b).
Proof. destruct (_id a), (_id b); simpl; congruence. Qed.

(** The loop of [upsert_batch_async] over records with pairwise distinct
    ids, none of which has a document or is waiting in the buffer: it makes
    [q] flushes of [DEFAULT_INSERT_BATCH_SIZE] documents each and leaves
    the rest in the buffer. *)
Lemma upsert_loop_new self c (records : list MemoryRecord) :
  0 < DEFAULT_INSERT_BATCH_SIZE →
  ∀ (buf : list Document) (ins : list Val) w,
    Z.of_nat (length buf) < DEFAULT_INSERT_BATCH_SIZE →
    NoDup (map _id records) →
    Forall (λ r, truthy_str (_id r) = true
                 ∧ (Some (id_value (_id r)) ∉ ids_of (coll_docs w c))
                 ∧ (Some (id_value (_id r)) ∉ ids_of buf)) records →
    ∃ buf' ins' w' new (q : Z),
      for_ records (upsert_batch_body self c) (buf, ins) w = (Ok (buf', ins'), w')
      ∧ trace w' = trace w ++ new
      ∧ Z.of_nat (length (filter (λ call, is_insert_many call = true) new)) = q
      ∧ Z.of_nat (length buf) + Z.of_nat (length records)
        = q * DEFAULT_INSERT_BATCH_SIZE + Z.of_nat (length buf')
      ∧ Z.of_nat (length buf') < DEFAULT_INSERT_BATCH_SIZE
      ∧ Z.of_nat (length ins')
        = Z.of_nat (length ins) + q * DEFAULT_INSERT_BATCH_SIZE.
Proof.
  intros HD. induction records as [|r records IH]; intros buf ins w Hbuf Hnodup Hall.
  - exists buf, ins, w, [], 0. simpl. rewrite app_nil_r. repeat split; lia.
  - apply NoDup_cons in Hnodup as [Hfresh Hnodup].
    apply Forall_cons in Hall as [(Htruthy & Hnew & Hwaiting) Hall].
    destruct (with_id_truthy w r Htruthy) as [Hr _].
    assert (find_first (query_of r) (coll_docs w c) = None) as Hfind.
    { apply eq_None_not_Some. intros Hsome. by apply find_first_ids in Hsome. }
    destruct (upsert_body_missing self c r buf ins w) as (w1 & Hrun & Ht & Hdocs & _).
    { rewrite Hr, Hfind. done. }
    rewrite Hr in Hrun, Ht, Hdocs. rewrite for_cons, Hrun. clear Hrun.
    assert (Forall (λ r', truthy_str (_id r') = true
                          ∧ (Some (id_value (_id r')) ∉ ids_of (coll_docs w c))
                          ∧ (Some (id_value (_id r'))
                             ∉ ids_of (buf ++ [document_of self r]))) records)
      as Hrest.
    { apply Forall_forall. intros r' Hin.
      rewrite Forall_forall in Hall. destruct (Hall r' Hin) as (Ht' & Hn' & Hw').
      split; [done|]. split; [done|].
      rewrite ids_of_app, elem_of_app. intros [?|Hlast]; [done|].
      simpl in Hlast. apply list_elem_of_singleton in Hlast.
      unfold document_of in Hlast. rewrite id_field in Hlast.
      injection Hlast as Heq. apply (id_value_ne r' r); [done|done| |done].
      intros Hid. apply Hfresh. rewrite <- Hid. apply list_elem_of_fmap. by exists r'. }
    case_bool_decide as Hflush.
    + destruct (IH [] (ins ++ map (λ doc, default VNone (doc !! "_id"))
                               (assign_object_ids (oid_next w)
                                  (buf ++ [document_of self r])).1) w1)
        as (buf' & ins' & w' & new & q & Hrun & Ht' & Hq & Hlen & Hlt & Hins);
        [simpl; lia|done| |].
      { eapply Forall_impl; [exact Hrest|]. intros r' (Ht' & Hn' & Hw').
        split; [done|]. split; [|apply not_elem_of_nil].
        rewrite Hdocs, ids_of_app, elem_of_app. intros [?|Hstored]; [done|].
        destruct (_id r') as [j|] eqn:Hj; [|done]. simpl in *.
        by apply ids_after_insert in Hstored. }
      exists buf', ins', w',
        (Call_find_one c (query_of r)
         :: Call_insert_many c (buf ++ [document_of self r]) :: new), (q + 1).
      split; [done|]. rewrite Ht', Ht.
      split; [by rewrite <- app_assoc|].
      rewrite length_app, length_map, assign_object_ids_length in Hins.
      rewrite length_app in Hflush, Hins. simpl in *.
      repeat split; lia.
    + destruct (IH (buf ++ [document_of self r]) ins w1)
        as (buf' & ins' & w' & new & q & Hrun & Ht' & Hq & Hlen & Hlt & Hins);
        [rewrite length_app in Hflush |- *; simpl in *; lia|done| |].
      { eapply Forall_impl; [exact Hrest|]. intros r' (Ht' & Hn' & Hw').
        split; [done|]. split; [|done]. by rewrite Hdocs, app_nil_r. }
      exists buf', ins', w', (Call_find_one c (query_of r) :: new), q.
      split; [done|]. rewrite Ht', Ht.
      split; [by rewrite <- app_assoc|].
      split; [exact Hq|].
      rewrite length_app in Hlen. simpl in *. repeat split; lia.
Qed.

(** For [n] records with pairwise distinct ids that have no document yet,
    [upsert_batch_async] returns [n] ids and sends
    ⌈n / DEFAULT_INSERT_BATCH_SIZE⌉ [insert_many] calls: the buffer is
    flushed whenever it holds [DEFAULT_INSERT_BATCH_SIZE] documents and
    once more at the end for a remainder.  The batch size the store was
    constructed with plays no part. *)
Lemma upsert_batch_new_ids self d collection_name (records : list MemoryRecord) w :
  _database self = Some d →
  0 < DEFAULT_INSERT_BATCH_SIZE →
  let c := mkCollectionHandle d collection_name in
  NoDup (map _id records) →
  Forall (λ r, truthy_str (_id r) = true
               ∧ find_first (query_of r) (coll_docs w c) = None) records →
  ∃ ids w',
    upsert_batch_async self collection_name records w = (Ok ids, w')
    ∧ length ids = length records
    ∧ Z.of_nat (length (insert_calls_since (length (trace w)) w'))
      = ceil_div (Z.of_nat (length records)) DEFAULT_INSERT_BATCH_SIZE.
Proof.
  intros Hd HD c Hnodup Hall.
  destruct (upsert_loop_new self c records HD [] [] w)
    as (buf' & ins' & w1 & new & q & Hrun & Ht & Hq & Hlen & Hlt & Hins);
    [simpl; lia|done| |].
  { eapply Forall_impl; [exact Hall|]. intros r [Htruthy Hnone].
    split; [done|]. split; [|apply not_elem_of_nil].
    intros Hin. apply find_first_ids in Hin as [found Hfound].
    unfold query_of in Hnone. congruence. }
  rewrite (upsert_batch_async_run _ d) by done. fold c. rewrite Hrun.
  assert (Z.of_nat (length records)
          = q * DEFAULT_INSERT_BATCH_SIZE + Z.of_nat (length buf')) as HN
    by (simpl in Hlen; lia).
  simpl in Hins. rewrite HN, ceil_div_flushes by lia.
  destruct buf' as [|x buf'].
  - exists ins', w1. split; [done|]. simpl in *. split; [lia|].
    unfold insert_calls_since. rewrite Ht, drop_app_length. lia.
  - destruct (insert_many_run c (x :: buf') w1) as (w2 & Hrun2 & Ht2 & _);
      [done|].
    rewrite Hrun2. eexists _, w2. split; [done|]. cbn [inserted_ids].
    rewrite length_app, length_map, assign_object_ids_length. split; [lia|].
    unfold insert_calls_since. rewrite Ht2, Ht, <- app_assoc, drop_app_length.
    rewrite filter_app, length_app.
    rewrite bool_decide_eq_false_2 by (simpl; lia).
    change (length (filter _ [Call_insert_many c (x :: buf')])) with 1%nat. lia.
Qed.

(** Whatever the value of [DEFAULT_INSERT_BATCH_SIZE], a store constructed
    with a batch size one above it upserts that many new records through
    two [insert_many] calls, where the configured batch size would give
    one. *)
Corollary upsert_batch_size_divergence self d collection_name
    (records : list MemoryRecord) w :
  _database self = Some d →
  0 < DEFAULT_INSERT_BATCH_SIZE →
  batch_size self = Some (DEFAULT_INSERT_BATCH_SIZE + 1) →
  Z.of_nat (length records) = DEFAULT_INSERT_BATCH_SIZE + 1 →
  let c := mkCollectionHandle d collection_name in
  NoDup (map _id records) →
  Forall (λ r, truthy_str (_id r) = true
               ∧ find_first (query_of r) (coll_docs w c) = None) records →
  ∃ ids w',
    upsert_batch_async self collection_name records w = (Ok ids, w')
    ∧ Z.of_nat (length (insert_calls_since (length (trace w)) w')) = 2
    ∧ ceil_div (Z.of_nat (length records)) (DEFAULT_INSERT_BATCH_SIZE + 1) = 1.
Proof.
  intros Hd HD _ HN c Hnodup Hall.
  destruct (upsert_batch_new_ids self d collection_name records w Hd HD Hnodup Hall)
    as (ids & w' & Hrun & _ & Hcount).
  exists ids, w'. split; [done|]. rewrite Hcount, HN. unfold ceil_div. split.
  - symmetry. apply (Z.div_unique _ _ _ 0); lia.
  - symmetry. apply (Z.div_unique _ _ _ DEFAULT_INSERT_BATCH_SIZE); lia.
Qed.

End IdField.

(** ** Upserting one record *)

Lemma upsert_async_refines self collection_name record w :
  upsert_async self collection_name record w
  = Upsert_contract self collection_name record w.
Proof.
  unfold upsert_async, Upsert_contract, mbind, M_bind.
  destruct (upsert_batch_async self collection_name [record] w) as [[l|err] w1];
    [|done].
  by destruct l.
Qed.

(** C5: [upsert_async] is [upsert_batch_async] on the one-element batch
    followed by taking the first id of its result, [None] when there is
    none.  On a store with a database handle it never raises: it returns
    [None] when the record already has a document (the record is updated),
    and otherwise the id of the record, its own or the UUID drawn for it.
    (The mapping of [.utils] is taken to store the id of a record under
    ["_id"], the key the server reports for an inserted document.) *)
Theorem upsert_contract self d collection_name record w :
  _database self = Some d →
  (∀ r embedding_key,
     memory_record_to_mongodb_record r embedding_key !! "_id"
     = Some (id_value (_id r))) →
  let c := mkCollectionHandle d collection_name in
  let q : Document := {[SEARCH_FIELD_ID := id_value (assigned_id w record)]} in
  upsert_async self collection_name record w
  = Upsert_contract self collection_name record w
  ∧ ∃ w', upsert_async self collection_name record w
          = (Ok (if truthy_doc (find_first q (coll_docs w c)) then None
                 else Some (id_value (assigned_id w record))), w').
Proof.
  intros Hd Hpk c q. split; [apply upsert_async_refines|].
  unfold upsert_async. unfold mbind at 1, M_bind at 1.
  rewrite (upsert_batch_async_run _ d) by done. fold c.
  rewrite for_cons. unfold q. rewrite <- id_with_id.
  fold (query_of (with_id w record)).
  destruct (truthy_doc (find_first (query_of (with_id w record)) (coll_docs w c)))
    eqn:Htruthy.
  - destruct (find_first (query_of (with_id w record)) (coll_docs w c))
      as [found|] eqn:Hfound; [|done].
    destruct (upsert_body_found self c record [] [] w found Hfound)
      as (w1 & -> & _). by eexists.
  - destruct (upsert_body_missing self c record [] [] w Htruthy)
      as (w1 & -> & _ & _ & _).
    simpl. unfold document_of. rewrite Hpk. simpl.
    case_bool_decide as Hflush; simpl.
    + rewrite Hpk. by eexists.
    + unfold mbind, M_bind, insert_many.
      unfold document_of. simpl. rewrite Hpk. simpl. rewrite Hpk. by eexists.
Qed.

(** ** The dialect *)

(** [upsert_batch_async] reads two attributes of the store, the database
    handle and the embedding key; the batch size is not among them. *)
Lemma upsert_batch_async_attributes self self' collection_name
    (records : list MemoryRecord) :
  _database self = _database self' →
  _embedding_key self = _embedding_key self' →
  upsert_batch_async self collection_name records
  = upsert_batch_async self' collection_name records.
Proof.
  intros Hd Hk. unfold upsert_batch_async, upsert_batch_body.
  by rewrite Hd, Hk.
Qed.

(** C10: [__init__] accepts any [api_type] and stores it as it is.  On the
    store so constructed, when [api_type] is not ["azuremongodb"] the
    pipeline [get_nearest_matches_async] hands to [aggregate] is the one
    [get_mongodbatlas_similarity_query] builds, and when it is neither
    ["azuremongodb"] nor ["mongodbatlas"] [create_collection_async] returns
    without a driver call and without an error, leaving the world as it
    found it. *)
Theorem dialect_not_validated self0 vector_size connection_string database_name
    api_type embedding_key collection_name index_name batch logger w0
    (n : string) (e : ndarray) (k : Z) (metric : string) (num_lists : Z) w :
  rejected_arguments vector_size embedding_key database_name collection_name = false →
  let out := __init__ self0 vector_size connection_string database_name
               api_type embedding_key collection_name index_name batch logger w0 in
  let self := out.1.2 in
  out.1.1 = Ok tt
  ∧ _api_type self = api_type
  ∧ (api_type ≠ Some "azuremongodb" →
     ∃ d records,
       _database self = Some d
       ∧ get_nearest_matches_async self n e k w
         = (Ok records,
            log w (Call_aggregate (mkCollectionHandle d n)
                     (get_mongodbatlas_similarity_query e embedding_key n k))))
  ∧ (api_type ≠ Some "azuremongodb" → api_type ≠ Some "mongodbatlas" →
     create_collection_async self n metric num_lists w = (Ok tt, w)).
Proof.
  intros Hok out self.
  apply rejected_arguments_false in Hok as (Hv & Hek & [dn Hdn] & [cn Hcn]).
  destruct (init_accepted self0 vector_size connection_string database_name
              api_type embedding_key collection_name index_name batch logger w0
              dn cn Hv Hek Hdn Hcn)
    as (Hres & Hdb & _ & Hapi & Hkey & _).
  fold out in Hres, Hdb, Hapi, Hkey. fold self in Hdb, Hapi, Hkey.
  split; [done|]. split; [done|]. split.
  - intros Hazure. eexists _, _. split; [exact Hdb|].
    rewrite (get_nearest_matches_async_run self _ n e k w Hdb).
    unfold search_pipeline. rewrite Hapi, Hkey.
    by rewrite bool_decide_eq_false_2.
  - intros Hazure Hatlas. apply create_collection_async_other; by rewrite Hapi.
Qed.

End Properties.

(** * Worked instances

    The theorems above that carry hypotheses, applied to the concrete
    instance [Demo], and the evaluations that settle the claims the code
    does not meet. *)

(** The mapping of [Demo] stores the id under the queried field, which is
    also the key of the server. *)
Lemma demo_id_field (record : @MemoryRecord (list Z)) (embedding_key : option string) :
  memory_record_to_mongodb_record (Utils:=Demo.utils) record embedding_key
    !! SEARCH_FIELD_ID (Utils:=Demo.utils)
  = Some (id_value (_id record)).
Proof. simpl. by rewrite lookup_insert_eq. Defined.

(** C1 (evaluation): the collection ["notes"] exists and carries no index
    at all, yet [__init__] raises nothing, keeps the collection handle and
    has sent no call to the server. *)
Theorem init_succeeds_without_index :
  let w := Demo.world (Demo.server_with []) in
  let out := __init__ (U:=Demo.utils) class_attributes 3
               (Some "mongodb://localhost") (Some "memory") (Some "mongodbatlas")
               (Some "embedding") (Some "notes") (Some "vectorSearchIndex")
               1000 None w in
  has_index w Demo.coll "vectorSearchIndex" = false
  ∧ out.1.1 = Ok tt
  ∧ is_missing_index_error out.1.1 = false
  ∧ _collection out.1.2 = Some Demo.coll
  ∧ trace out.2 = [].
Proof. repeat split. Qed.

(** C2 (evaluation): with [DEFAULT_INSERT_BATCH_SIZE] at 2, a store
    constructed with batch size 3 upserts three records with new ids
    through two [insert_many] calls, where ⌈3/3⌉ = 1; the three ids are
    returned. *)
Theorem upsert_batch_ignores_batch_size :
  let self := Demo.store (Some "azuremongodb") 3 in
  let w := Demo.world (Demo.server_with []) in
  let records := [Demo.record "a" "first" [1; 0; 0];
                  Demo.record "b" "second" [0; 1; 0];
                  Demo.record "c" "third" [0; 0; 1]] in
  let out := upsert_batch_async (U:=Demo.utils) self "notes" records w in
  batch_size self = Some 3
  ∧ out.1 = Ok [VStr "a"; VStr "b"; VStr "c"]
  ∧ length (insert_calls_since 0 out.2) = 2%nat
  ∧ ceil_div 3 3 = 1.
Proof. vm_compute. repeat split. Qed.

(** C3 (counterexample): the empty string is not a non-empty string, so the
    contract calls these arguments invalid; [__init__] raises no
    configuration error for them. *)
Lemma init_accepts_empty_embedding_key :
  let out := __init__ (U:=Demo.utils) class_attributes 3
               (Some "mongodb://localhost") (Some "memory") (Some "azuremongodb")
               (Some "") (Some "notes") (Some "vectorSearchIndex")
               1000 None (Demo.world ∅) in
  contract_invalid_arguments 3 (Some "") (Some "memory") (Some "notes") = true
  ∧ is_configuration_error out.1.1 = false
  ∧ out.1.1 = Ok tt.
Proof. repeat split. Qed.

(** [upsert_batch_existing] on two stored notes, revised in one batch. *)
Lemma upsert_batch_existing_witness :
  let self := Demo.store (Some "azuremongodb") 1000 in
  let w := Demo.world Demo.stocked in
  let records := [Demo.record "b" "second, revised" [0; 1; 1];
                  Demo.record "a" "first, revised" [1; 0; 1]] in
  _database self = Some Demo.db
  ∧ Forall (λ r, truthy_str (_id r) = true
                 ∧ is_Some (find_first (query_of (U:=Demo.utils) r)
                              (coll_docs w Demo.coll))) records
  ∧ ∃ w', upsert_batch_async (U:=Demo.utils) self "notes" records w = (Ok [], w')
          ∧ insert_calls_since (length (trace w)) w' = [].
Proof.
  intros self w records.
  assert (_database self = Some Demo.db) as Hd by reflexivity.
  assert (Forall (λ r, truthy_str (_id r) = true
                       ∧ is_Some (find_first (query_of (U:=Demo.utils) r)
                                    (coll_docs w Demo.coll))) records) as Hall.
  { repeat constructor; vm_compute; eauto. }
  split; [exact Hd|]. split; [exact Hall|].
  destruct (upsert_batch_existing (U:=Demo.utils) demo_id_field self Demo.db
              "notes" records w Hd Hall) as (w' & Hrun & _ & Hnone & _).
  exists w'. by split.
Defined.

(** [upsert_contract] on a record without an id: the UUID drawn for it comes
    back. *)
Lemma upsert_contract_witness :
  let self := Demo.store (Some "azuremongodb") 1000 in
  let w := Demo.world Demo.stocked in
  let record := mkMemoryRecord None "third" [0; 0; 1] in
  _database self = Some Demo.db
  ∧ upsert_async (U:=Demo.utils) self "notes" record w
    = Upsert_contract (U:=Demo.utils) self "notes" record w
  ∧ ∃ w', upsert_async (U:=Demo.utils) self "notes" record w
          = (Ok (Some (VStr "7d1f")), w').
Proof.
  intros self w record.
  assert (_database self = Some Demo.db) as Hd by reflexivity.
  split; [exact Hd|].
  exact (upsert_contract (U:=Demo.utils) self Demo.db "notes" record w Hd
           demo_id_field).
Defined.

(** [get_batch_contract] on two stored keys around a missing one. *)
Lemma get_batch_contract_witness :
  let self := Demo.store (Some "azuremongodb") 1000 in
  let w := Demo.world Demo.stocked in
  let keys := ["b"; "missing"; "a"] in
  _database self = Some Demo.db
  ∧ Forall (λ key, (length (filter (Matches (by_id (U:=Demo.utils) key))
                              (coll_docs w Demo.coll)) ≤ 1)%nat) keys
  ∧ ∃ w', get_batch_async (U:=Demo.utils) self "notes" keys w
          = (Ok [Demo.record "b" "second" [0; 1; 0];
                 Demo.record "a" "first" [1; 0; 0]], w').
Proof.
  intros self w keys.
  assert (_database self = Some Demo.db) as Hd by reflexivity.
  assert (Forall (λ key, (length (filter (Matches (by_id (U:=Demo.utils) key))
                                    (coll_docs w Demo.coll)) ≤ 1)%nat) keys) as Hone.
  { repeat constructor. }
  split; [exact Hd|]. split; [exact Hone|].
  destruct (get_batch_contract (U:=Demo.utils) self Demo.db "notes" keys w Hd)
    as (records & w' & Hrun & Hrecords & _).
  { by apply Forall_forall. }
  exists w'. rewrite Hrun, Hrecords. reflexivity.
Defined.



(** [remove_contract] on a missing key and on a batch with one. *)
Lemma remove_contract_witness :
  let self := Demo.store (Some "azuremongodb") 1000 in
  let w := Demo.world Demo.stocked in
  _database self = Some Demo.db
  ∧ (∃ w', remove_async (U:=Demo.utils) self "notes" "missing" w = (Ok tt, w')
           ∧ coll_docs w' Demo.coll = coll_docs w Demo.coll)
  ∧ ∃ w', remove_batch_async (U:=Demo.utils) self "notes" ["a"; "missing"] w = (Ok tt, w')
          ∧ trace w' = [Call_delete_one Demo.coll (by_id (U:=Demo.utils) "a");
                        Call_delete_one Demo.coll (by_id (U:=Demo.utils) "missing")].
Proof.
  intros self w.
  assert (_database self = Some Demo.db) as Hd by reflexivity.
  split; [exact Hd|].
  destruct (remove_contract (U:=Demo.utils) self Demo.db "notes" "missing"
              ["a"; "missing"] w Hd) as (Hone & _ & _).
  destruct (remove_contract (U:=Demo.utils) self Demo.db "notes" "a"
              ["a"; "missing"] w Hd) as (_ & Hbatch & _).
  split.
  - destruct Hone as (w' & Hrun & _ & _ & _ & Habsent). exists w'.
    split; [exact Hrun|]. exact Habsent.
  - destruct Hbatch as (w' & Hrun & Htrace & _). exists w'.
    split; [exact Hrun|]. exact Htrace.
Defined.

(** [create_collection_contract] under the Cosmos dialect on an empty
    server. *)
Lemma create_collection_contract_witness :
  let self := Demo.store (Some "azuremongodb") 1000 in
  let w := Demo.world ∅ in
  _database self = Some Demo.db
  ∧ _api_type self = Some "azuremongodb"
  ∧ db_state w Demo.db !! "notes" = None
  ∧ ∃ w', create_collection_async self "notes" "COS" 100 w = (Ok tt, w')
          ∧ db_state w' Demo.db !! "notes"
            = Some (mkCollection []
                      [mkIndexDoc "vectorSearchIndex"
                         (Some (mkIndexSpec "vectorSearchIndex"
                                  (Some "embedding", "cosmosSearch")
                                  (mkCosmosSearchOptions "vector-ivf" 100 "COS"
                                     (Some 3))))]).
Proof.
  intros self w.
  assert (_database self = Some Demo.db) as Hd by reflexivity.
  assert (_api_type self = Some "azuremongodb") as Hapi by reflexivity.
  assert (db_state w Demo.db !! "notes" = None) as Habsent by reflexivity.
  split; [exact Hd|]. split; [exact Hapi|]. split; [exact Habsent|].
  destruct (create_collection_contract self Demo.db "notes" "COS"
              100 w Hd) as (Hazure & _ & _).
  destruct (Hazure Hapi Habsent) as (_ & _ & _ & _ & w' & Hrun & Hstate & _).
  exists w'. split; [exact Hrun|]. exact Hstate.
Defined.

(** [dialect_not_validated] for a dialect the connector does not know. *)
Lemma dialect_not_validated_witness :
  let w := Demo.world ∅ in
  let out := __init__ (U:=Demo.utils) class_attributes 3
               (Some "mongodb://localhost") (Some "memory") (Some "cassandra")
               (Some "embedding") (Some "notes") (Some "vectorSearchIndex")
               1000 None w in
  rejected_arguments 3 (Some "embedding") (Some "memory") (Some "notes") = false
  ∧ out.1.1 = Ok tt
  ∧ _api_type out.1.2 = Some "cassandra"
  ∧ create_collection_async out.1.2 "notes" "COS" 100 w = (Ok tt, w).
Proof.
  intros w out.
  assert (rejected_arguments 3 (Some "embedding") (Some "memory") (Some "notes")
          = false) as Hok by reflexivity.
  split; [exact Hok|].
  destruct (dialect_not_validated (U:=Demo.utils) class_attributes 3
              (Some "mongodb://localhost") (Some "memory") (Some "cassandra")
              (Some "embedding") (Some "notes") (Some "vectorSearchIndex")
              1000 None w "notes" [1; 0; 0] 1 "COS" 100 w Hok)
    as (Hres & Hapi & _ & Hcreate).
  split; [exact Hres|]. split; [exact Hapi|].
  apply Hcreate; discriminate.
Defined.

(** [upsert_batch_new_ids] on three new records with the constant at 2. *)
Lemma upsert_batch_new_ids_witness :
  let self := Demo.store (Some "azuremongodb") 3 in
  let w := Demo.world (Demo.server_with []) in
  let records := [Demo.record "a" "first" [1; 0; 0];
                  Demo.record "b" "second" [0; 1; 0];
                  Demo.record "c" "third" [0; 0; 1]] in
  ∃ ids w',
    upsert_batch_async (U:=Demo.utils) self "notes" records w = (Ok ids, w')
    ∧ length ids = 3%nat
    ∧ Z.of_nat (length (insert_calls_since 0 w')) = ceil_div 3 2.
Proof.
  intros self w records.
  apply (upsert_batch_new_ids (U:=Demo.utils) demo_id_field self Demo.db "notes"
           records w); [reflexivity|reflexivity| |].
  - refine (bool_decide_unpack (NoDup (map _id records)) _). vm_compute. exact I.
  - repeat constructor.
Defined.

(** * Further properties of the class

    The accounting of [upsert_batch_async], how the operations compose
    (upsert then get, remove then get, create then create), and what the
    methods do on an object that has no database handle. *)

Section Operations.

Context {ndarray Pipeline : Type} `{!EqDecision ndarray}.
Context {U : @Utils ndarray Pipeline}.

Local Abbreviation Val := (@Value ndarray).
Local Abbreviation Document := (gmap string (@Value ndarray)).

Implicit Types (w : @World ndarray Pipeline) (self : Instance).
Implicit Types (c : CollectionHandle).
Implicit Types (docs : list Document) (record : @MemoryRecord ndarray).

(** Unfolds the binds and returns of the goal. *)
Ltac monad_steps := unfold mbind, M_bind, mret, M_ret; simpl.

(** ** Every record is updated or inserted *)

Lemma count_calls_app (p : @Call ndarray Pipeline → bool) (l1 l2 : list Call) :
  count_calls p (l1 ++ l2) = (count_calls p l1 + count_calls p l2)%nat.
Proof. unfold count_calls. by rewrite filter_app, length_app. Qed.

(** One iteration, whatever the record: the state does not shrink, one
    [find_one] is sent, and the record is either updated or buffered. *)
Lemma upsert_body_accounting self c record (buf : list Document) (ins : list Val) w :
  ∃ buf' ins' w' new,
    upsert_batch_body self c record (buf, ins) w = (Ok (buf', ins'), w')
    ∧ trace w' = trace w ++ new
    ∧ (length buf' + length ins' + count_calls is_update_one new
       = length buf + length ins + 1)%nat
    ∧ count_calls is_find_one new = 1%nat.
Proof.
  destruct (truthy_doc (find_first (query_of (with_id w record)) (coll_docs w c)))
    eqn:Htruthy.
  - destruct (find_first (query_of (with_id w record)) (coll_docs w c))
      as [found|] eqn:Hfound; [|done].
    destruct (upsert_body_found self c record buf ins w found Hfound)
      as (w' & Hrun & Ht & _).
    exists buf, ins, w'. eexists. split; [exact Hrun|]. split; [exact Ht|].
    split; [|reflexivity]. change (count_calls is_update_one _) with 1%nat. lia.
  - destruct (upsert_body_missing self c record buf ins w Htruthy)
      as (w' & Hrun & Ht & _).
    case_bool_decide as Hflush.
    + eexists _, _, w', _. split; [exact Hrun|]. split; [exact Ht|].
      split; [|reflexivity]. change (count_calls is_update_one _) with 0%nat.
      rewrite length_app, length_map, assign_object_ids_length, length_app.
      simpl. lia.
    + eexists _, _, w', _. split; [exact Hrun|]. split; [exact Ht|].
      split; [|reflexivity]. change (count_calls is_update_one _) with 0%nat.
      rewrite length_app. simpl. lia.
Qed.

Lemma upsert_loop_accounting self c (records : list MemoryRecord) :
  ∀ (buf : list Document) (ins : list Val) w,
    ∃ buf' ins' w' new,
      for_ records (upsert_batch_body self c) (buf, ins) w = (Ok (buf', ins'), w')
      ∧ trace w' = trace w ++ new
      ∧ (length buf' + length ins' + count_calls is_update_one new
         = length buf + length ins + length records)%nat
      ∧ count_calls is_find_one new = length records.
Proof.
  induction records as [|r records IH]; intros buf ins w.
  - exists buf, ins, w, []. simpl. rewrite app_nil_r.
    repeat split; try done; unfold count_calls; simpl; lia.
  - destruct (upsert_body_accounting self c r buf ins w)
      as (buf1 & ins1 & w1 & new1 & Hrun1 & Ht1 & Hlen1 & Hfind1).
    destruct (IH buf1 ins1 w1) as (buf2 & ins2 & w2 & new2 & Hrun2 & Ht2 & Hlen2 & Hfind2).
    exists buf2, ins2, w2, (new1 ++ new2). rewrite for_cons, Hrun1.
    split; [exact Hrun2|]. split; [by rewrite Ht2, Ht1, <- app_assoc|].
    rewrite !count_calls_app. simpl. split; lia.
Qed.

(** ** Single-record runs *)

Lemma for_nil {A S : Type} (body : A → S → M S) (s : S) w :
  for_ [] body s w = (Ok s, w).
Proof. reflexivity. Qed.

Lemma get_async_run self d collection_name (key : string) w :
  _database self = Some d →
  let c := mkCollectionHandle d collection_name in
  get_async self collection_name key w
  = (Ok (record_of self <$> head (filter (Matches (by_id key)) (coll_docs w c))),
     log w (Call_find c (by_id key))).
Proof.
  intros Hd c. unfold get_async. rewrite Hd. unfold getitem.
  unfold mbind, M_bind, mret, M_ret, find. fold c. fold (by_id key).
  by destruct (filter (Matches (by_id key)) (coll_docs w c)).
Qed.

Lemma find_first_None_filter (q : Document) docs :
  find_first q docs = None → filter (Matches q) docs = [].
Proof. unfold find_first. by destruct (filter (Matches q) docs). Qed.

Lemma truthy_doc_query (k : string) (v : Val) docs :
  truthy_doc (find_first {[k := v]} docs) = false ↔ find_first {[k := v]} docs = None.
Proof.
  split; [|by intros ->].
  destruct (find_first {[k := v]} docs) as [found|] eqn:Hf; [|done].
  by rewrite (truthy_doc_found _ _ _ _ Hf).
Qed.

(** What the server stores for one document: the document itself when it
    brings its ["_id"], otherwise the document with a fresh ObjectId. *)
Lemma assign_object_ids_singleton (n : nat) (doc : Document) :
  ∃ stored, (assign_object_ids n [doc]).1 = [stored]
            ∧ doc ⊆ stored
            ∧ (is_Some (doc !! "_id") → stored = doc).
Proof.
  simpl. destruct (doc !! "_id") as [v|] eqn:Hid; simpl.
  - by exists doc.
  - exists (<["_id" := VObjectId n]> doc). split; [done|].
    split; [by apply insert_subseteq|]. by intros [? ?].
Qed.

(** [upsert_async] of a record that has no document: one document is
    appended, the record's own extended at most by the server's key, and
    the key the server reports is returned. *)
Lemma upsert_async_new_run self d collection_name record w :
  _database self = Some d →
  let c := mkCollectionHandle d collection_name in
  let r := with_id w record in
  find_first (query_of r) (coll_docs w c) = None →
  ∃ stored w',
    upsert_async self collection_name record w
    = (Ok (Some (default VNone (stored !! "_id"))), w')
    ∧ coll_docs w' c = coll_docs w c ++ [stored]
    ∧ document_of self r ⊆ stored
    ∧ (is_Some (document_of self r !! "_id") → stored = document_of self r).
Proof.
  intros Hd c r Hnone. unfold upsert_async. unfold mbind at 1, M_bind at 1.
  rewrite (upsert_batch_async_run _ d) by done. fold c. rewrite for_cons.
  destruct (upsert_body_missing self c record [] [] w) as (w1 & -> & _ & Hdocs & _).
  { fold r. by rewrite Hnone. }
  fold r in Hdocs |- *.
  change ([] ++ [document_of self r]) with [document_of self r] in Hdocs |- *.
  destruct (bool_decide (Z.of_nat (length [document_of self r])
                         = DEFAULT_INSERT_BATCH_SIZE)) eqn:Hflush.
  - destruct (assign_object_ids_singleton (oid_next w) (document_of self r))
      as (stored & Hstored & Hsub & Hsame).
    rewrite Hstored in Hdocs |- *. simpl. by exists stored, w1.
  - rewrite for_nil.
    destruct (insert_many_run c [document_of self r] w1) as (w2 & -> & _ & Hdocs2 & _);
      [done|].
    destruct (assign_object_ids_singleton (oid_next w1) (document_of self r))
      as (stored & Hstored & Hsub & Hsame).
    rewrite Hstored in Hdocs2 |- *. simpl. exists stored, w2.
    split; [done|]. rewrite Hdocs2, Hdocs, app_nil_r. by split.
Qed.

(** [upsert_async] of a record that has a document: the first such
    document takes the fields of the record, and nothing is returned. *)
Lemma upsert_async_existing_run self d collection_name record w found :
  _database self = Some d →
  let c := mkCollectionHandle d collection_name in
  let r := with_id w record in
  find_first (query_of r) (coll_docs w c) = Some found →
  ∃ w', upsert_async self collection_name record w = (Ok None, w')
        ∧ coll_docs w' c
          = update_first (query_of r) (λ doc, document_of self r ∪ doc) (coll_docs w c).
Proof.
  intros Hd c r Hfound. unfold upsert_async. unfold mbind at 1, M_bind at 1.
  rewrite (upsert_batch_async_run _ d) by done. fold c. rewrite for_cons.
  destruct (upsert_body_found self c record [] [] w found Hfound)
    as (w1 & -> & _ & Hdocs).
  by exists w1.
Qed.

Lemma update_first_last (q : Document) (f : Document → Document) docs (doc : Document) :
  find_first q docs = None → Matches q doc →
  update_first q f (docs ++ [doc]) = docs ++ [f doc].
Proof.
  intros Hnone Hm. rewrite find_first_None in Hnone.
  induction docs as [|x docs IH]; simpl.
  - by rewrite decide_True.
  - rewrite decide_False by (apply Hnone; by left).
    rewrite IH; [done|]. intros y Hy. apply Hnone. by right.
Qed.

Lemma find_first_last (q : Document) docs (doc : Document) :
  find_first q docs = None → Matches q doc →
  find_first q (docs ++ [doc]) = Some doc.
Proof.
  intros Hnone Hm. unfold find_first.
  rewrite filter_app, (find_first_None_filter _ _ Hnone). simpl.
  rewrite filter_cons, decide_True by done. done.
Qed.

Section Mapping.

(** The mapping of [.utils] stores the id of a record under the field the
    connector queries by. *)
Hypothesis id_field : ∀ record embedding_key,
  memory_record_to_mongodb_record record embedding_key !! SEARCH_FIELD_ID
  = Some (id_value (_id record)).

Lemma stored_matches self record (stored : Document) :
  document_of self record ⊆ stored → Matches (query_of record) stored.
Proof.
  intros Hsub. apply Matches_singleton.
  eapply lookup_weaken; [|exact Hsub]. apply id_field.
Qed.

(** X2.  Upserting a record whose id has no document yet and then getting
    that id gives the record back, with the UUID drawn for it when it came
    without an id.  (The mappings of [.utils] are taken to be inverse to
    each other for the embedding key of the store and to store the id under
    the queried field and under the server's key ["_id"].) *)
Theorem upsert_then_get self d collection_name record w (i : string) :
  _database self = Some d →
  (∀ r embedding_key,
     memory_record_to_mongodb_record r embedding_key !! "_id"
     = Some (id_value (_id r))) →
  (∀ r, record_of self (document_of self r) = r) →
  assigned_id w record = Some i →
  let c := mkCollectionHandle d collection_name in
  find_first (by_id i) (coll_docs w c) = None →
  ∃ w1 w2,
    upsert_async self collection_name record w = (Ok (Some (VStr i)), w1)
    ∧ get_async self collection_name i w1 = (Ok (Some (with_id w record)), w2).
Proof.
  intros Hd Hpk Hround Hid c Hnone.
  assert (query_of (with_id w record) = by_id i) as Hq.
  { unfold query_of, by_id. by rewrite id_with_id, Hid. }
  destruct (upsert_async_new_run self d collection_name record w Hd)
    as (stored & w1 & Hrun & Hdocs & Hsub & Hsame).
  { by rewrite Hq. }
  fold c in Hdocs. rewrite Hsame in Hrun, Hdocs, Hsub
    by (unfold document_of; rewrite Hpk; by eexists).
  exists w1. eexists. split.
  - rewrite Hrun. unfold document_of. by rewrite Hpk, id_with_id, Hid.
  - rewrite (get_async_run self d) by done. fold c. rewrite Hdocs.
    rewrite filter_app, (find_first_None_filter _ _ Hnone). simpl.
    rewrite filter_cons, decide_True.
    + simpl. by rewrite Hround.
    + rewrite <- Hq. by apply (stored_matches self).
Qed.

(** X3.  Upserting an id twice does not duplicate it: when a record with a
    new id has been upserted, upserting a record with the same id returns
    [None] and the collection holds, after the documents it had, one
    document for that id, carrying every field of the second record. *)
Theorem upsert_twice self d collection_name (r1 r2 : MemoryRecord) w (i : string) :
  _database self = Some d →
  _id r1 = Some i → _id r2 = Some i → i ≠ "" →
  let c := mkCollectionHandle d collection_name in
  find_first (by_id i) (coll_docs w c) = None →
  ∃ first stored w1 w2,
    upsert_async self collection_name r1 w = (Ok (Some first), w1)
    ∧ upsert_async self collection_name r2 w1 = (Ok None, w2)
    ∧ coll_docs w2 c = coll_docs w c ++ [document_of self r2 ∪ stored]
    ∧ filter (Matches (by_id i)) (coll_docs w2 c) = [document_of self r2 ∪ stored]
    ∧ document_of self r2 ⊆ document_of self r2 ∪ stored.
Proof.
  intros Hd H1 H2 Hne c Hnone.
  assert (∀ r w0, _id r = Some i → with_id w0 r = r ∧ query_of r = by_id i) as Hwith.
  { intros r w0 Hr. split.
    - apply with_id_truthy. rewrite Hr. simpl. by rewrite bool_decide_eq_false_2.
    - unfold query_of, by_id. by rewrite Hr. }
  destruct (Hwith r1 w H1) as [Hw1 Hq1]. destruct (Hwith r2 w H2) as [_ Hq2].
  destruct (upsert_async_new_run self d collection_name r1 w Hd)
    as (stored & w1 & Hrun1 & Hdocs1 & Hsub & _).
  { by rewrite Hw1, Hq1. }
  fold c in Hdocs1. rewrite Hw1 in Hsub.
  assert (Matches (by_id i) stored) as Hm.
  { rewrite <- Hq1. by apply (stored_matches self). }
  destruct (Hwith r2 w1 H2) as [Hw2 _].
  destruct (upsert_async_existing_run self d collection_name r2 w1 stored Hd)
    as (w2 & Hrun2 & Hdocs2).
  { rewrite Hw2, Hq2. fold c. rewrite Hdocs1. by apply find_first_last. }
  fold c in Hdocs2. rewrite Hw2, Hq2, Hdocs1 in Hdocs2.
  rewrite update_first_last in Hdocs2 by done.
  eexists _, stored, w1, w2. split; [exact Hrun1|]. split; [exact Hrun2|].
  split; [exact Hdocs2|]. split; [|apply map_union_subseteq_l].
  rewrite Hdocs2, filter_app, (find_first_None_filter _ _ Hnone). simpl.
  rewrite filter_cons, decide_True; [done|].
  rewrite <- Hq2. apply (stored_matches self). apply map_union_subseteq_l.
Qed.

End Mapping.

(** ** Lookup, alone and in batch *)

Lemma coll_docs_log_finds c c' (keys : list string) w :
  coll_docs (log_finds c keys w) c' = coll_docs w c'.
Proof.
  revert w. induction keys as [|key keys IH]; intros w; [done|].
  unfold log_finds in *. simpl. by rewrite IH.
Qed.

Lemma find_loop_exact self c (keys : list string) :
  ∀ (acc : list MemoryRecord) w,
    for_ keys
      (λ key search_results,
         result_cursor ← find c {[SEARCH_FIELD_ID := VStr key]};
         for_ result_cursor
           (λ document search_results,
              mret (search_results
                    ++ [dict_to_memory_record document (_embedding_key self)]))
           search_results)
      acc w
    = (Ok (acc ++ flat_map
                    (λ key, map (record_of self)
                              (filter (Matches (by_id key)) (coll_docs w c)))
                    keys),
       log_finds c keys w).
Proof.
  induction keys as [|key keys IH]; intros acc w.
  - simpl. by rewrite app_nil_r.
  - rewrite for_cons. unfold mbind at 1, M_bind at 1. unfold find at 1.
    rewrite (for_pure _ _ (λ acc doc, acc ++ [record_of self doc])) by done.
    rewrite foldl_snoc_map, IH. simpl. by rewrite <- app_assoc.
Qed.

Lemma get_batch_async_run self d collection_name (keys : list string) w :
  _database self = Some d →
  let c := mkCollectionHandle d collection_name in
  get_batch_async self collection_name keys w
  = (Ok (flat_map (λ key, map (record_of self)
                            (filter (Matches (by_id key)) (coll_docs w c))) keys),
     log_finds c keys w).
Proof.
  intros Hd c. unfold get_batch_async. rewrite Hd.
  exact (find_loop_exact self c keys [] w).
Qed.

(** X4.  [get_async] answers like [get_batch_async] on the one-key list
    followed by taking the first record: the same call is sent, and a key
    without a document gives [None], not an error. *)
Theorem get_is_first_of_batch self d collection_name (key : string) w :
  _database self = Some d →
  let c := mkCollectionHandle d collection_name in
  ∃ records w',
    get_batch_async self collection_name [key] w = (Ok records, w')
    ∧ get_async self collection_name key w = (Ok (head records), w')
    ∧ trace w' = trace w ++ [Call_find c (by_id key)]
    ∧ match find_first (by_id key) (coll_docs w c) with
      | Some doc => head records = Some (record_of self doc)
      | None => records = []
      end.
Proof.
  intros Hd c. rewrite (get_batch_async_run self d) by done.
  rewrite (get_async_run self d) by done. fold c.
  eexists _, _. split; [done|]. simpl. rewrite app_nil_r.
  unfold find_first.
  destruct (filter (Matches (by_id key)) (coll_docs w c)); by repeat split.
Qed.

(** X5.  [get_batch_async] on a concatenation of key lists is the lookup of
    the first list followed by the lookup of the second: the records come
    out list after list, a key listed twice gives its records twice. *)
Theorem get_batch_app self d collection_name (keys1 keys2 : list string) w :
  _database self = Some d →
  ∃ records1 records2 w1 w2,
    get_batch_async self collection_name keys1 w = (Ok records1, w1)
    ∧ get_batch_async self collection_name keys2 w1 = (Ok records2, w2)
    ∧ get_batch_async self collection_name (keys1 ++ keys2) w
      = (Ok (records1 ++ records2), w2).
Proof.
  intros Hd. rewrite !(get_batch_async_run self d) by done.
  eexists _, _, _, _. split; [done|].
  rewrite (get_batch_async_run self d) by done. split; [done|].
  rewrite coll_docs_log_finds, flat_map_app.
  unfold log_finds. by rewrite foldl_app.
Qed.

(** ** Removal and lookup *)

Lemma filter_delete_first_same (q : Document) docs :
  filter (Matches q) (delete_first q docs) = tail (filter (Matches q) docs).
Proof.
  induction docs as [|x docs IH]; [done|]. simpl.
  destruct (decide (Matches q x)) as [Hm|Hm].
  - by rewrite filter_cons, decide_True.
  - by rewrite !filter_cons, !decide_False.
Qed.

Lemma filter_delete_first_other (q q' : Document) docs :
  (∀ doc, Matches q doc → ¬ Matches q' doc) →
  filter (Matches q') (delete_first q docs) = filter (Matches q') docs.
Proof.
  intros Hdisjoint. induction docs as [|x docs IH]; [done|]. simpl.
  destruct (decide (Matches q x)) as [Hm|Hm].
  - by rewrite filter_cons, decide_False by by apply Hdisjoint.
  - by rewrite !filter_cons, IH.
Qed.

Lemma by_id_disjoint (key key' : string) (doc : Document) :
  key ≠ key' → Matches (by_id key) doc → ¬ Matches (by_id key') doc.
Proof.
  intros Hne Hm Hm'. unfold by_id in *.
  apply Matches_singleton in Hm, Hm'. congruence.
Qed.

(** X6.  After [remove_async] of a key, [get_async] of that key gives
    [None], provided the collection held at most one document for the
    key. *)
Theorem remove_then_get self d collection_name (key : string) w :
  _database self = Some d →
  let c := mkCollectionHandle d collection_name in
  (length (filter (Matches (by_id key)) (coll_docs w c)) ≤ 1)%nat →
  ∃ w1 w2,
    remove_async self collection_name key w = (Ok tt, w1)
    ∧ get_async self collection_name key w1 = (Ok None, w2).
Proof.
  intros Hd c Hone. rewrite (remove_async_run self d) by done. fold c.
  destruct (delete_one_run c (by_id key) w) as (w1 & Hrun & _ & Hdocs).
  exists w1. eexists. split; [exact Hrun|].
  rewrite (get_async_run self d) by done. fold c.
  rewrite Hdocs, filter_delete_first_same.
  by destruct (filter (Matches (by_id key)) (coll_docs w c)) as [|x [|y l]];
    simpl in *; [..|lia].
Qed.

(** X7.  [remove_async] of a key leaves every other key as it was:
    [get_async] of a different key answers after the removal what it
    answered before. *)
Theorem remove_keeps_other_keys self d collection_name (key key' : string) w :
  _database self = Some d →
  key ≠ key' →
  ∃ w1,
    remove_async self collection_name key w = (Ok tt, w1)
    ∧ (get_async self collection_name key' w1).1
      = (get_async self collection_name key' w).1.
Proof.
  intros Hd Hne. set (c := mkCollectionHandle d collection_name).
  rewrite (remove_async_run self d) by done. fold c.
  destruct (delete_one_run c (by_id key) w) as (w1 & Hrun & _ & Hdocs).
  exists w1. split; [exact Hrun|].
  rewrite !(get_async_run self d) by done. fold c. simpl.
  rewrite Hdocs, filter_delete_first_other; [done|].
  intros doc. by apply by_id_disjoint.
Qed.

(** ** Batch removal *)

Lemma filter_all {A : Type} (P : A → Prop) `{!∀ x, Decision (P x)} (l : list A) :
  (∀ x, x ∈ l → P x) → filter P l = l.
Proof.
  induction l as [|x l IH]; intros Hall; [done|].
  rewrite filter_cons, decide_True by (apply Hall; by left).
  rewrite IH; [done|]. intros y Hy. apply Hall. by right.
Qed.

Lemma delete_first_filter (q : Document) docs :
  (length (filter (Matches q) docs) ≤ 1)%nat →
  delete_first q docs = filter (λ doc, ¬ Matches q doc) docs.
Proof.
  induction docs as [|x docs IH]; [done|]. simpl.
  rewrite !filter_cons. destruct (decide (Matches q x)) as [Hm|Hm]; simpl.
  - intros Hone. rewrite decide_False by (by intros Hn; apply Hn).
    symmetry. apply filter_all. intros y Hy Hmy.
    assert (y ∈ filter (Matches q) docs) as Hin by by apply list_elem_of_filter.
    destruct (filter (Matches q) docs); [by apply not_elem_of_nil in Hin|].
    simpl in Hone. lia.
  - intros Hone. rewrite decide_True by done. by rewrite IH.
Qed.

Lemma length_filter_delete_first (P : Document → Prop) `{!∀ x, Decision (P x)}
    (q : Document) docs :
  (length (filter P (delete_first q docs)) ≤ length (filter P docs))%nat.
Proof.
  induction docs as [|x docs IH]; [done|]. simpl.
  destruct (decide (Matches q x)).
  - rewrite filter_cons. destruct (decide (P x)); simpl; lia.
  - rewrite !filter_cons. destruct (decide (P x)); simpl; lia.
Qed.

Lemma foldl_delete_first (keys : list string) :
  ∀ docs,
    (∀ key, key ∈ keys → length (filter (Matches (by_id key)) docs) ≤ 1)%nat →
    foldl (λ docs key, delete_first (by_id key) docs) docs keys
    = filter (kept_by keys) docs.
Proof.
  induction keys as [|key keys IH]; intros docs Hone.
  - simpl. symmetry. apply filter_all. intros x _. apply Forall_nil_2.
  - simpl. rewrite IH.
    + rewrite delete_first_filter by (apply Hone; by left).
      rewrite list_filter_filter. apply list_filter_iff.
      intros doc. unfold kept_by. rewrite Forall_cons. tauto.
    + intros key' Hin.
      etrans; [apply length_filter_delete_first|]. apply Hone. by right.
Qed.

(** X8.  On a collection holding at most one document per listed key,
    [remove_batch_async] leaves exactly the documents that answer to none
    of the keys, in their order; afterwards no listed key has a document. *)
Theorem remove_batch_removes_keys self d collection_name (keys : list string) w :
  _database self = Some d →
  let c := mkCollectionHandle d collection_name in
  (∀ key, key ∈ keys →
     length (filter (Matches (by_id key)) (coll_docs w c)) ≤ 1)%nat →
  ∃ w',
    remove_batch_async self collection_name keys w = (Ok tt, w')
    ∧ coll_docs w' c = filter (kept_by keys) (coll_docs w c)
    ∧ Forall (λ key, find_first (by_id key) (coll_docs w' c) = None) keys.
Proof.
  intros Hd c Hone. unfold remove_batch_async. rewrite Hd.
  destruct (remove_loop_run c keys w) as (w' & Hrun & _ & Hdocs).
  exists w'. split; [exact Hrun|].
  rewrite Hdocs, foldl_delete_first by done. split; [done|].
  apply Forall_forall. intros key Hin. apply find_first_None.
  intros doc Hdoc Hm. apply list_elem_of_filter in Hdoc as [Hkept _].
  unfold kept_by in Hkept. rewrite Forall_forall in Hkept.
  by apply (Hkept key Hin).
Qed.

(** ** Collections *)

Lemma delete_collection_async_run self d collection_name w :
  _database self = Some d →
  delete_collection_async self collection_name w
  = (Ok tt,
     set_db (log w (Call_drop (mkCollectionHandle d collection_name))) d
       (delete collection_name (db_state w d))).
Proof. intros Hd. unfold delete_collection_async. by rewrite Hd. Qed.

(** X9.  [delete_collection_async] never raises, whether the collection
    exists or not.  Afterwards the collection does not exist, every key
    looked up in it gives [None], and every other collection of the
    database is as it was. *)
Theorem delete_collection_contract self d collection_name (other key : string) w :
  _database self = Some d →
  other ≠ collection_name →
  ∃ w1 w2 w3,
    delete_collection_async self collection_name w = (Ok tt, w1)
    ∧ does_collection_exist_async self collection_name w1 = (Ok false, w2)
    ∧ get_async self collection_name key w1 = (Ok None, w3)
    ∧ db_state w1 d !! other = db_state w d !! other.
Proof.
  intros Hd Hother.
  rewrite (delete_collection_async_run self d) by done.
  eexists _, _, _. split; [done|].
  rewrite (does_collection_exist_async_run self d) by done.
  rewrite (get_async_run self d) by done.
  unfold coll_docs, coll_state. simpl coll_db. simpl coll_name.
  rewrite !db_state_set_db, lookup_delete_eq, lookup_delete_ne by done.
  rewrite bool_decide_eq_false_2 by (by intros [? ?]).
  by repeat split.
Qed.

Lemma create_collection_async_ensures self d (n metric : string) (num_lists : Z) w :
  _database self = Some d →
  ∃ w1,
    create_collection_async self n metric num_lists w = (Ok tt, w1)
    ∧ coll_docs w1 (mkCollectionHandle d n) = coll_docs w (mkCollectionHandle d n)
    ∧ (_api_type self = Some "azuremongodb" ∨ _api_type self = Some "mongodbatlas" →
       is_Some (db_state w1 d !! n)).
Proof.
  intros Hd.
  destruct (decide (_api_type self = Some "azuremongodb"
                    ∨ _api_type self = Some "mongodbatlas")) as [Hapi|Hapi].
  - destruct (db_state w d !! n) as [st|] eqn:Hn.
    + exists (log w (Call_list_collection_names d)).
      split; [apply create_collection_async_present; eauto|].
      split; [done|]. intros _. rewrite db_state_log. eauto.
    + destruct Hapi as [Hazure|Hatlas].
      * destruct (create_collection_async_azure self d n metric num_lists w Hd Hazure Hn)
          as (w1 & Hrun & Hstate & _).
        exists w1. split; [exact Hrun|]. split; [|intros _; rewrite Hstate; eauto].
        unfold coll_docs, coll_state. simpl. by rewrite Hstate, Hn.
      * destruct (create_collection_async_atlas self d n metric num_lists w Hd Hatlas Hn)
          as (w1 & Hrun & Hstate & _).
        exists w1. split; [exact Hrun|]. split; [|intros _; rewrite Hstate; eauto].
        unfold coll_docs, coll_state. simpl. by rewrite Hstate, Hn.
  - exists w. split; [|by split].
    apply create_collection_async_other; intros Heq; apply Hapi; eauto.
Qed.

(** X10.  On a store with a database handle [create_collection_async] never
    raises, whatever the dialect and whether or not the collection exists.
    Under either supported dialect the collection exists afterwards with
    the documents it had, and a second call changes nothing on the
    server. *)
Theorem create_collection_idempotent self d (n metric : string) (num_lists : Z) w :
  _database self = Some d →
  ∃ w1 w2,
    create_collection_async self n metric num_lists w = (Ok tt, w1)
    ∧ create_collection_async self n metric num_lists w1 = (Ok tt, w2)
    ∧ server w2 = server w1
    ∧ coll_docs w1 (mkCollectionHandle d n) = coll_docs w (mkCollectionHandle d n)
    ∧ (_api_type self = Some "azuremongodb" ∨ _api_type self = Some "mongodbatlas" →
       is_Some (db_state w1 d !! n)).
Proof.
  intros Hd.
  destruct (create_collection_async_ensures self d n metric num_lists w Hd)
    as (w1 & Hrun & Hdocs & Hexists).
  destruct (decide (_api_type self = Some "azuremongodb"
                    ∨ _api_type self = Some "mongodbatlas")) as [Hapi|Hapi].
  - exists w1, (log w1 (Call_list_collection_names d)).
    split; [exact Hrun|].
    split; [apply create_collection_async_present; eauto|]. by repeat split.
  - exists w1, w1. split; [exact Hrun|].
    split; [|by repeat split].
    apply create_collection_async_other; intros Heq; apply Hapi; eauto.
Qed.

(** ** The index check *)

Lemma py_eq_index_false (index_name : @PyObj ndarray Pipeline) (listed : list IndexDoc) :
  (∀ doc, index_name ≠ PyIndex doc) →
  existsb (λ doc, py_eq index_name (PyIndex doc)) listed = false.
Proof.
  intros Hscalar. induction listed as [|x listed IH]; [done|]. simpl.
  rewrite IH, orb_false_r. destruct index_name; try done.
  by destruct (Hscalar d).
Qed.

(** X11.  [does_index_exist_async] answers [False] for every index name
    that is a string ([None] and booleans alike), whatever indexes the
    collection carries: it looks for the name among the index documents
    that [list_indexes] yields, and a name is never equal to a document. *)
Theorem does_index_exist_never_true self d collection_name
    (index_name : @PyObj ndarray Pipeline) w :
  _database self = Some d →
  (∀ doc, index_name ≠ PyIndex doc) →
  does_index_exist_async self collection_name index_name w
  = (Ok false, log w (Call_list_indexes (mkCollectionHandle d collection_name))).
Proof.
  intros Hd Hscalar. unfold does_index_exist_async. rewrite Hd.
  unfold getitem, list_indexes. monad_steps.
  by rewrite py_eq_index_false.
Qed.

(** ** An object without a database handle *)

(** X12.  On an object whose [_database] is still [None], as it is while
    [__init__] runs its checks, the index check and every data operation
    raise [TypeError] before any driver call; the collection catalogue
    methods raise [AttributeError]. *)
Theorem no_database_handle self collection_name (record : MemoryRecord)
    (records : list MemoryRecord) (key : string) (keys : list string)
    (index_name : @PyObj ndarray Pipeline) (e : ndarray) (k : Z) w :
  _database self = None →
  let subscript := TypeError "'NoneType' object is not subscriptable" in
  let attribute := AttributeError "'NoneType' object has no attribute" in
  does_index_exist_async self collection_name index_name w = (Raise subscript, w)
  ∧ upsert_batch_async self collection_name records w = (Raise subscript, w)
  ∧ upsert_async self collection_name record w = (Raise subscript, w)
  ∧ get_async self collection_name key w = (Raise subscript, w)
  ∧ get_batch_async self collection_name keys w = (Raise subscript, w)
  ∧ remove_async self collection_name key w = (Raise subscript, w)
  ∧ remove_batch_async self collection_name keys w = (Raise subscript, w)
  ∧ get_nearest_matches_async self collection_name e k w = (Raise subscript, w)
  ∧ get_nearest_match_async self collection_name e w = (Raise subscript, w)
  ∧ delete_collection_async self collection_name w = (Raise subscript, w)
  ∧ does_collection_exist_async self collection_name w = (Raise attribute, w)
  ∧ get_collections_async self w = (Raise attribute, w).
Proof.
  intros Hd subscript attribute.
  unfold does_index_exist_async, upsert_async, upsert_batch_async, get_async,
    get_batch_async, remove_async, remove_batch_async, get_nearest_match_async,
    get_nearest_matches_async, delete_collection_async,
    does_collection_exist_async, get_collections_async.
  rewrite Hd. by repeat split.
Qed.

(** ** Construction and closing *)

(** X13.  When one of its four guards fails, [__init__] raises the error of
    the first that does, in the order dimension, embedding key, database
    name, collection name, and leaves the object and the world as they
    were.  When it returns, the batch size is stored in [batch_size];
    [_batch_size] and [_collection_name] keep the value the object had, a
    missing logger has become the null logger and the index name is stored
    as given. *)
Theorem init_outcome_and_attributes self0 vector_size connection_string
    database_name api_type embedding_key collection_name index_name batch
    logger w :
  let out := __init__ self0 vector_size connection_string database_name
               api_type embedding_key collection_name index_name batch logger w in
  match init_outcome vector_size embedding_key database_name collection_name with
  | Raise e => out.1.1 = Raise e ∧ out.1.2 = self0 ∧ out.2 = w
  | Ok _ => is_configuration_error out.1.1 = false
  end
  ∧ match out.1.1 with
    | Ok _ =>
        batch_size out.1.2 = Some batch
        ∧ _batch_size out.1.2 = _batch_size self0
        ∧ _collection_name out.1.2 = _collection_name self0
        ∧ _logger out.1.2 = Some (default NullLogger logger)
        ∧ _index_name out.1.2 = index_name
    | Raise _ => True
    end.
Proof.
  unfold __init__, init_outcome. case_bool_decide; [done|].
  destruct embedding_key; [|done]. destruct database_name as [dn|]; [|done].
  destruct collection_name as [cn|]; [|done]. simpl.
  by destruct (get_mongodb_resources connection_string dn).
Qed.

(** X14.  On the store [__init__] leaves, [close_async] sends one [close]
    to the client [get_mongodb_resources] gave and then raises [TypeError]:
    line 93 awaits what [close] returns, and that is [None].  On an object
    that was never constructed it sends nothing and returns. *)
Theorem close_after_init self0 vector_size connection_string database_name
    api_type embedding_key collection_name index_name batch logger w0 w :
  rejected_arguments vector_size embedding_key database_name collection_name = false →
  let self := (__init__ self0 vector_size connection_string database_name
                 api_type embedding_key collection_name index_name batch logger
                 w0).1.2 in
  (∃ client, _mongodb_client self = Some client
             ∧ (∀ dn, database_name = Some dn →
                      client = (get_mongodb_resources connection_string dn).1)
             ∧ close_async self w
               = (Raise (TypeError "object NoneType can't be used in 'await' expression"),
                  log w (Call_close client)))
  ∧ close_async class_attributes w = (Ok tt, w).
Proof.
  intros Hok self. split; [|done].
  apply rejected_arguments_false in Hok as (Hv & [ek ->] & [dn ->] & [cn ->]).
  unfold self, __init__. rewrite bool_decide_eq_false_2 by lia. simpl.
  destruct (get_mongodb_resources connection_string dn) as [client database] eqn:Hres.
  exists client. simpl. split; [done|]. split; [|done].
  intros dn' [= <-]. by rewrite Hres.
Qed.

(** X15.  Of what the constructor is given, only the connection, the
    database name, the dialect and the embedding key reach the data
    operations: two stores that differ in vector size, collection name,
    index name, batch size and logger upsert, look up, remove and search
    alike, each operation addressing the collection named in its own
    argument. *)
Theorem constructor_arguments_ignored
    connection_string database_name api_type embedding_key
    self1 vector_size1 collection_name1 index_name1 batch1 logger1 w1
    self2 vector_size2 collection_name2 index_name2 batch2 logger2 w2
    (n : string) (records : list MemoryRecord) (keys : list string)
    (e : ndarray) (k : Z) :
  rejected_arguments vector_size1 embedding_key database_name collection_name1 = false →
  rejected_arguments vector_size2 embedding_key database_name collection_name2 = false →
  let store1 := (__init__ self1 vector_size1 connection_string database_name
                   api_type embedding_key collection_name1 index_name1 batch1
                   logger1 w1).1.2 in
  let store2 := (__init__ self2 vector_size2 connection_string database_name
                   api_type embedding_key collection_name2 index_name2 batch2
                   logger2 w2).1.2 in
  upsert_batch_async store1 n records = upsert_batch_async store2 n records
  ∧ get_batch_async store1 n keys = get_batch_async store2 n keys
  ∧ remove_batch_async store1 n keys = remove_batch_async store2 n keys
  ∧ get_nearest_matches_async store1 n e k = get_nearest_matches_async store2 n e k.
Proof.
  intros Hok1 Hok2 store1 store2.
  apply rejected_arguments_false in Hok1 as (Hv1 & Hek & [dn Hdn] & [cn1 Hcn1]).
  apply rejected_arguments_false in Hok2 as (Hv2 & _ & _ & [cn2 Hcn2]).
  destruct (init_accepted self1 vector_size1 connection_string database_name
              api_type embedding_key collection_name1 index_name1 batch1 logger1
              w1 dn cn1 Hv1 Hek Hdn Hcn1) as (_ & Hd1 & _ & Ha1 & Hk1 & _).
  destruct (init_accepted self2 vector_size2 connection_string database_name
              api_type embedding_key collection_name2 index_name2 batch2 logger2
              w2 dn cn2 Hv2 Hek Hdn Hcn2) as (_ & Hd2 & _ & Ha2 & Hk2 & _).
  fold store1 in Hd1, Ha1, Hk1. fold store2 in Hd2, Ha2, Hk2.
  unfold upsert_batch_async, upsert_batch_body, get_batch_async,
    remove_batch_async, get_nearest_matches_async, search_pipeline.
  by rewrite Hd1, Hd2, Ha1, Ha2, Hk1, Hk2.
Qed.

(** ** Batches of any shape *)

Section Batches.

Hypothesis id_field : ∀ record embedding_key,
  memory_record_to_mongodb_record record embedding_key !! SEARCH_FIELD_ID
  = Some (id_value (_id record)).

Lemma assign_keeps_ids (v : Val) (n : nat) docs :
  Some v ∈ ids_of docs → Some v ∈ ids_of (assign_object_ids n docs).1.
Proof.
  revert n. induction docs as [|x docs IH]; intros n; [done|]. simpl.
  destruct (x !! "_id") eqn:Hx.
  - specialize (IH n). destruct (assign_object_ids n docs) as [docs' n'].
    simpl in *. rewrite !elem_of_cons. intros [?|?]; [by left|right; by apply IH].
  - specialize (IH (S n)). destruct (assign_object_ids (S n) docs) as [docs' n'].
    simpl in *. rewrite !elem_of_cons. intros [Hhead|?]; [|right; by apply IH].
    left. destruct (decide (SEARCH_FIELD_ID = "_id")) as [Heq|Hne].
    + rewrite Heq, Hx in Hhead. done.
    + by rewrite lookup_insert_ne.
Qed.

Lemma ids_of_snoc self record (buf : list Document) :
  ids_of (buf ++ [document_of self record])
  = ids_of buf ++ [Some (id_value (_id record))].
Proof. rewrite ids_of_app. simpl. unfold document_of. by rewrite id_field. Qed.

(** One iteration keeps every id that was stored or waiting, and leaves the
    id of its record stored or waiting. *)
Lemma upsert_body_stores self c record (buf : list Document) (ins : list Val) w :
  ∃ buf' ins' w',
    upsert_batch_body self c record (buf, ins) w = (Ok (buf', ins'), w')
    ∧ (∀ v : Val, Some v ∈ ids_of (coll_docs w c) ++ ids_of buf →
                  Some v ∈ ids_of (coll_docs w' c) ++ ids_of buf')
    ∧ Some (id_value (_id (with_id w record))) ∈ ids_of (coll_docs w' c) ++ ids_of buf'.
Proof.
  set (r := with_id w record).
  destruct (truthy_doc (find_first (query_of r) (coll_docs w c))) eqn:Htruthy.
  - destruct (find_first (query_of r) (coll_docs w c)) as [found|] eqn:Hfound; [|done].
    destruct (upsert_body_found self c record buf ins w found Hfound)
      as (w' & Hrun & _ & Hdocs).
    fold r in Hdocs.
    assert (ids_of (coll_docs w' c) = ids_of (coll_docs w c)) as Hids.
    { rewrite Hdocs. apply ids_of_update_first. intros doc.
      by apply set_keeps_id. }
    exists buf, ins, w'. split; [exact Hrun|]. rewrite Hids. split; [done|].
    apply elem_of_app. left. apply find_first_ids. unfold query_of in Hfound.
    by rewrite Hfound.
  - destruct (upsert_body_missing self c record buf ins w Htruthy)
      as (w' & Hrun & _ & Hdocs & _).
    fold r in Hdocs, Hrun.
    destruct (bool_decide (Z.of_nat (length (buf ++ [document_of self r]))
                           = DEFAULT_INSERT_BATCH_SIZE)) eqn:Hflush.
    + eexists _, _, w'. split; [exact Hrun|]. rewrite Hdocs. split.
      * intros v. rewrite !ids_of_app, !elem_of_app. intros [?|Hbuf]; [by left; left|].
        left. right. apply assign_keeps_ids. rewrite ids_of_snoc, elem_of_app. by left.
      * rewrite !ids_of_app, !elem_of_app. left. right. apply assign_keeps_ids.
        rewrite ids_of_snoc, elem_of_app. right. by left.
    + eexists _, _, w'. split; [exact Hrun|].
      rewrite Hdocs, app_nil_r, ids_of_snoc. split.
      * intros v. rewrite !elem_of_app. intros [?|?]; [by left|by right; left].
      * rewrite !elem_of_app. right. right. by left.
Qed.

Lemma upsert_loop_stores self c (records : list MemoryRecord) :
  ∀ (buf : list Document) (ins : list Val) w,
    ∃ buf' ins' w',
      for_ records (upsert_batch_body self c) (buf, ins) w = (Ok (buf', ins'), w')
      ∧ (∀ v : Val, Some v ∈ ids_of (coll_docs w c) ++ ids_of buf →
                    Some v ∈ ids_of (coll_docs w' c) ++ ids_of buf')
      ∧ Forall (λ r, truthy_str (_id r) = true →
                     Some (id_value (_id r)) ∈ ids_of (coll_docs w' c) ++ ids_of buf')
          records.
Proof.
  induction records as [|r records IH]; intros buf ins w.
  - by exists buf, ins, w.
  - destruct (upsert_body_stores self c r buf ins w)
      as (buf1 & ins1 & w1 & Hrun1 & Hmono1 & Hr).
    destruct (IH buf1 ins1 w1) as (buf2 & ins2 & w2 & Hrun2 & Hmono2 & Hall).
    exists buf2, ins2, w2. rewrite for_cons, Hrun1. split; [exact Hrun2|].
    split; [intros v Hv; by apply Hmono2, Hmono1|].
    apply Forall_cons. split; [|done].
    intros Htruthy. apply Hmono2.
    by destruct (with_id_truthy w r Htruthy) as [<- _].
Qed.

(** The key the server reports for each document of a list. *)
Lemma assign_with_ids (n : nat) docs :
  Forall (λ doc : Document, is_Some (doc !! "_id")) docs →
  (assign_object_ids n docs).1 = docs.
Proof.
  revert n. induction docs as [|x docs IH]; intros n Hall; [done|].
  apply Forall_cons in Hall as [[v Hv] Hall]. simpl. rewrite Hv.
  specialize (IH n Hall). destruct (assign_object_ids n docs). simpl in *.
  by rewrite IH.
Qed.

Section ServerKey.

(** The mapping of [.utils] stores the id of a record under ["_id"], the
    key of the server. *)
Hypothesis pk_field : ∀ record embedding_key,
  memory_record_to_mongodb_record record embedding_key !! "_id"
  = Some (id_value (_id record)).

(** The loop of [upsert_batch_async] over records with pairwise distinct
    ids: what has been returned and what waits in the buffer are, in
    order, the ids of the records met so far that had no document. *)
Lemma upsert_loop_mixed self c (docs0 : list Document) (records : list MemoryRecord) :
  NoDup (map _id records) →
  ∀ (buf : list Document) (ins : list Val) w,
    Forall (λ r, truthy_str (_id r) = true
                 ∧ (Some (id_value (_id r)) ∈ ids_of (coll_docs w c)
                    ↔ Some (id_value (_id r)) ∈ ids_of docs0)
                 ∧ (Some (id_value (_id r)) ∉ ids_of buf)) records →
    Forall (λ doc : Document, is_Some (doc !! "_id")) buf →
    ∃ buf' ins' w',
      for_ records (upsert_batch_body self c) (buf, ins) w = (Ok (buf', ins'), w')
      ∧ Forall (λ doc : Document, is_Some (doc !! "_id")) buf'
      ∧ ins' ++ map (λ doc, default VNone (doc !! "_id")) buf'
        = ins ++ map (λ doc, default VNone (doc !! "_id")) buf
          ++ map (λ r, id_value (_id r))
               (filter (λ r, Some (id_value (_id r)) ∉ ids_of docs0) records).
Proof.
  induction records as [|r records IH]; intros Hnodup buf ins w Hall Hbuf.
  - exists buf, ins, w. simpl. by rewrite app_nil_r.
  - apply NoDup_cons in Hnodup as [Hfresh Hnodup].
    apply Forall_cons in Hall as [(Htruthy & Hiff & Hwaiting) Hall].
    destruct (with_id_truthy w r Htruthy) as [Hr _].
    rewrite for_cons, filter_cons.
    destruct (find_first (query_of r) (coll_docs w c)) as [found|] eqn:Hfound.
    + destruct (upsert_body_found self c r buf ins w found) as (w1 & -> & _ & Hdocs);
        [by rewrite Hr|]. rewrite Hr in Hdocs.
      assert (ids_of (coll_docs w1 c) = ids_of (coll_docs w c)) as Hids.
      { rewrite Hdocs. apply ids_of_update_first. intros doc. by apply set_keeps_id. }
      assert (Some (id_value (_id r)) ∈ ids_of docs0) as Hold.
      { apply Hiff, find_first_ids. unfold query_of in Hfound. by rewrite Hfound. }
      rewrite decide_False by (by intros Hn; apply Hn).
      apply (IH Hnodup buf ins w1); [|done].
      eapply Forall_impl; [exact Hall|]. intros r' (? & ? & ?). by rewrite Hids.
    + assert (Some (id_value (_id r)) ∉ ids_of docs0) as Hnew.
      { intros Hin. apply Hiff, find_first_ids in Hin as [found Hsome].
        unfold query_of in Hfound. congruence. }
      rewrite decide_True by done.
      destruct (upsert_body_missing self c r buf ins w) as (w1 & -> & _ & Hdocs & _);
        [by rewrite Hr, Hfound|]. rewrite Hr in Hdocs |- *.
      assert (Forall (λ doc : Document, is_Some (doc !! "_id"))
                (buf ++ [document_of self r])) as Hbuf1.
      { apply Forall_app. split; [done|]. apply Forall_singleton.
        unfold document_of. rewrite pk_field. by eexists. }
      assert (Forall (λ r', Some (id_value (_id r'))
                            ∉ ids_of (buf ++ [document_of self r])) records) as Hrest.
      { apply Forall_forall. intros r' Hin. rewrite Forall_forall in Hall.
        destruct (Hall r' Hin) as (Ht' & _ & Hw').
        rewrite ids_of_snoc, elem_of_app. intros [?|Hlast]; [done|].
        apply list_elem_of_singleton in Hlast. injection Hlast as Heq.
        apply (id_value_ne r' r); [done|done| |done].
        intros Hid. apply Hfresh. rewrite <- Hid. apply list_elem_of_fmap. by exists r'. }
      rewrite assign_with_ids in Hdocs |- * by done.
      assert (map (λ doc : Document, default VNone (doc !! "_id"))
                (buf ++ [document_of self r])
              = map (λ doc : Document, default VNone (doc !! "_id")) buf
                ++ [id_value (_id r)]) as Hkeys.
      { rewrite map_app. simpl. unfold document_of. by rewrite pk_field. }
      case_bool_decide as Hflush.
      * destruct (IH Hnodup [] (ins ++ map (λ doc : Document, default VNone (doc !! "_id"))
                                         (buf ++ [document_of self r])) w1)
          as (buf' & ins' & w' & Hrun & Hbuf' & Hkeys'); [|done|].
        { apply Forall_forall. intros r' Hin. rewrite Forall_forall in Hall, Hrest.
          destruct (Hall r' Hin) as (Ht' & Hiff' & _).
          split; [done|]. split; [|apply not_elem_of_nil].
          rewrite Hdocs, ids_of_app, elem_of_app, <- Hiff'.
          split; [|by left]. intros [?|Hin1]; [done|]. by destruct (Hrest r' Hin). }
        exists buf', ins', w'. split; [exact Hrun|]. split; [exact Hbuf'|].
        rewrite Hkeys', Hkeys. simpl. by rewrite <- !app_assoc.
      * destruct (IH Hnodup (buf ++ [document_of self r]) ins w1)
          as (buf' & ins' & w' & Hrun & Hbuf' & Hkeys'); [|done|].
        { apply Forall_forall. intros r' Hin. rewrite Forall_forall in Hall, Hrest.
          destruct (Hall r' Hin) as (Ht' & Hiff' & _).
          split; [done|]. split; [|by apply Hrest].
          by rewrite Hdocs, app_nil_r. }
        exists buf', ins', w'. split; [exact Hrun|]. split; [exact Hbuf'|].
        rewrite Hkeys', Hkeys. simpl. by rewrite <- !app_assoc.
Qed.

(** X17.  For a batch of records with ids, pairwise distinct,
    [upsert_batch_async] returns the ids of exactly the records that had
    no document, in the order of the batch; the ids of the records it
    updated are not in the result.  (The mapping of [.utils] is taken to
    store the id of a record under the queried field and under ["_id"].) *)
Theorem upsert_batch_returns_new_ids self d collection_name
    (records : list MemoryRecord) w :
  _database self = Some d →
  NoDup (map _id records) →
  Forall (λ r, truthy_str (_id r) = true) records →
  let c := mkCollectionHandle d collection_name in
  ∃ w',
    upsert_batch_async self collection_name records w
    = (Ok (map (λ r, id_value (_id r))
             (filter (λ r, find_first (query_of r) (coll_docs w c) = None) records)),
       w').
Proof.
  intros Hd Hnodup Htruthy c.
  rewrite (upsert_batch_async_run _ d) by done. fold c.
  destruct (upsert_loop_mixed self c (coll_docs w c) records Hnodup [] [] w)
    as (buf & ins & w1 & Hrun & Hbuf & Hkeys); [|done|].
  { eapply Forall_impl; [exact Htruthy|]. intros r Hr.
    split; [done|]. split; [done|apply not_elem_of_nil]. }
  rewrite Hrun. simpl in Hkeys.
  assert (filter (λ r, find_first (query_of r) (coll_docs w c) = None) records
          = filter (λ r, Some (id_value (_id r)) ∉ ids_of (coll_docs w c)) records)
    as ->.
  { apply list_filter_iff. intros r. unfold query_of.
    rewrite <- find_first_ids, eq_None_not_Some. done. }
  rewrite <- Hkeys. destruct buf as [|x buf].
  - exists w1. simpl. by rewrite app_nil_r.
  - destruct (insert_many_run c (x :: buf) w1) as (w2 & Hrun2 & _); [done|].
    rewrite Hrun2. exists w2. cbn [inserted_ids].
    by rewrite assign_with_ids.
Qed.

(** ** Batches of records with distinct ids *)

Lemma length_filter_complement {A : Type} (P : A → Prop) `{!∀ x, Decision (P x)}
    (l : list A) :
  (length (filter P l) + length (filter (λ x, ¬ P x) l) = length l)%nat.
Proof.
  induction l as [|x l IH]; [done|]. rewrite !filter_cons.
  destruct (decide (P x)); simpl.
  - rewrite decide_False by (by intros Hn; apply Hn). lia.
  - rewrite decide_True by done. simpl. lia.
Qed.

Lemma find_first_app_Some (q : Document) docs1 docs2 (doc : Document) :
  find_first q docs1 = Some doc → find_first q (docs1 ++ docs2) = Some doc.
Proof.
  unfold find_first. rewrite filter_app.
  by destruct (filter (Matches q) docs1).
Qed.

Lemma find_first_app_None (q : Document) docs1 docs2 :
  find_first q docs1 = None → find_first q (docs1 ++ docs2) = find_first q docs2.
Proof.
  intros Hnone. unfold find_first.
  by rewrite filter_app, (find_first_None_filter _ _ Hnone).
Qed.

Lemma query_of_disjoint (r r' : MemoryRecord) (doc : Document) :
  truthy_str (_id r) = true → truthy_str (_id r') = true → _id r ≠ _id r' →
  Matches (query_of r) doc → ¬ Matches (query_of r') doc.
Proof.
  intros Ht Ht' Hne Hm Hm'. apply (id_value_ne r r' Ht Ht' Hne).
  apply Matches_singleton in Hm, Hm'. congruence.
Qed.

(** A record that is settled, in the collection or in the buffer, stays so
    when the buffer is flushed into the collection, when the buffer grows,
    and when the document of a record with another id is updated. *)
Lemma settled_flush self (r : MemoryRecord) docs (buf : list Document) :
  carried_by self r docs ∨ waiting_in self r docs buf →
  carried_by self r (docs ++ buf).
Proof.
  intros [(doc & Hfound & Hsub)|[Hnone Hbuf]].
  - exists doc. split; [by apply find_first_app_Some|done].
  - exists (document_of self r). by rewrite find_first_app_None.
Qed.

Lemma settled_buffer self (r : MemoryRecord) docs (buf : list Document) (doc : Document) :
  carried_by self r docs ∨ waiting_in self r docs buf →
  carried_by self r docs ∨ waiting_in self r docs (buf ++ [doc]).
Proof.
  intros [?|[Hnone Hbuf]]; [by left|right].
  split; [done|]. by apply find_first_app_Some.
Qed.

Lemma settled_update self (r r' : MemoryRecord) docs (buf : list Document) :
  truthy_str (_id r) = true → truthy_str (_id r') = true → _id r' ≠ _id r →
  carried_by self r docs ∨ waiting_in self r docs buf →
  let docs' := update_first (query_of r') (λ doc, document_of self r' ∪ doc) docs in
  carried_by self r docs' ∨ waiting_in self r docs' buf.
Proof.
  intros Ht Ht' Hne Hsettled docs'.
  assert (find_first (query_of r) docs' = find_first (query_of r) docs) as Hsame.
  { apply find_first_update_first_other. intros doc Hm. split.
    - by apply (query_of_disjoint r' r).
    - apply (query_of_disjoint r' r); [done..|].
      apply Matches_singleton. rewrite (set_keeps_id id_field self r' doc Hm).
      by apply Matches_singleton in Hm. }
  unfold carried_by, waiting_in in *. by rewrite Hsame.
Qed.

(** The loop of [upsert_batch_async] over records with pairwise distinct
    ids settles every record it meets: the document of the record is in
    the collection, carrying the record's fields, or waits in the
    buffer. *)
Lemma upsert_loop_carries self c (records : list MemoryRecord) :
  ∀ (done : list MemoryRecord) (buf : list Document) (ins : list Val) w,
    NoDup (map _id (done ++ records)) →
    Forall (λ r, truthy_str (_id r) = true) (done ++ records) →
    Forall (λ doc : Document, is_Some (doc !! "_id")) buf →
    Forall (λ r, Some (id_value (_id r)) ∉ ids_of buf) records →
    Forall (λ r, carried_by self r (coll_docs w c)
                 ∨ waiting_in self r (coll_docs w c) buf) done →
    ∃ buf' ins' w',
      for_ records (upsert_batch_body self c) (buf, ins) w = (Ok (buf', ins'), w')
      ∧ Forall (λ doc : Document, is_Some (doc !! "_id")) buf'
      ∧ Forall (λ r, carried_by self r (coll_docs w' c)
                     ∨ waiting_in self r (coll_docs w' c) buf') (done ++ records).
Proof.
  induction records as [|r records IH]; intros done buf ins w Hnodup Htruthy Hbuf Hfresh Hinv.
  - exists buf, ins, w. by rewrite app_nil_r.
  - assert (truthy_str (_id r) = true) as Hr.
    { rewrite Forall_app, Forall_cons in Htruthy. tauto. }
    assert (∀ r1, r1 ∈ done → truthy_str (_id r1) = true ∧ _id r ≠ _id r1) as Hdone.
    { intros r1 Hin. split.
      - apply Forall_app in Htruthy as [Hall _].
        rewrite Forall_forall in Hall. by apply Hall.
      - rewrite map_app in Hnodup. apply NoDup_app in Hnodup as (_ & Hsep & _).
        intros Heq. apply (Hsep (_id r1)).
        + apply list_elem_of_fmap. by exists r1.
        + rewrite <- Heq. simpl. by left. }
    assert (∀ r2, r2 ∈ records → truthy_str (_id r2) = true ∧ _id r2 ≠ _id r) as Hrest.
    { intros r2 Hin. split.
      - apply Forall_app in Htruthy as [_ Hall].
        apply Forall_cons in Hall as [_ Hall].
        rewrite Forall_forall in Hall. by apply Hall.
      - rewrite map_app in Hnodup. apply NoDup_app in Hnodup as (_ & _ & Hnd).
        simpl in Hnd. apply NoDup_cons in Hnd as [Hnotin _].
        intros Heq. apply Hnotin. rewrite <- Heq. apply list_elem_of_fmap. by exists r2. }
    apply Forall_cons in Hfresh as [Hr_fresh Hfresh].
    destruct (with_id_truthy w r Hr) as [Hwith _].
    rewrite for_cons.
    assert (∀ buf1 ins1 w1,
              Forall (λ doc : Document, is_Some (doc !! "_id")) buf1 →
              Forall (λ r2, Some (id_value (_id r2)) ∉ ids_of buf1) records →
              Forall (λ r1, carried_by self r1 (coll_docs w1 c)
                            ∨ waiting_in self r1 (coll_docs w1 c) buf1) (done ++ [r]) →
              ∃ buf' ins' w',
                for_ records (upsert_batch_body self c) (buf1, ins1) w1
                = (Ok (buf', ins'), w')
                ∧ Forall (λ doc : Document, is_Some (doc !! "_id")) buf'
                ∧ Forall (λ r1, carried_by self r1 (coll_docs w' c)
                                ∨ waiting_in self r1 (coll_docs w' c) buf')
                    (done ++ r :: records)) as Hnext.
    { intros buf1 ins1 w1 Hb1 Hf1 Hi1.
      destruct (IH (done ++ [r]) buf1 ins1 w1) as (buf' & ins' & w' & Hrun & Hb' & Hi');
        try done; try by rewrite <- app_assoc.
      exists buf', ins', w'. by rewrite <- app_assoc in Hi'. }
    destruct (find_first (query_of r) (coll_docs w c)) as [found|] eqn:Hfound.
    + destruct (upsert_body_found self c r buf ins w found) as (w1 & -> & _ & Hdocs);
        [by rewrite Hwith|]. rewrite Hwith in Hdocs.
      apply Hnext; [done|done|]. rewrite Hdocs. apply Forall_app. split.
      * apply Forall_forall. intros r1 Hin. destruct (Hdone r1 Hin) as [Ht1 Hne1].
        apply settled_update; [done..|]. rewrite Forall_forall in Hinv. by apply Hinv.
      * apply Forall_singleton. left. exists (document_of self r ∪ found).
        split; [|apply map_union_subseteq_l].
        apply find_first_update_first_same; [done|].
        apply Matches_singleton. rewrite (set_keeps_id id_field).
        -- by apply find_first_Some in Hfound as [_ ?%Matches_singleton].
        -- by apply find_first_Some in Hfound as [_ ?].
    + destruct (upsert_body_missing self c r buf ins w) as (w1 & -> & _ & Hdocs & _);
        [by rewrite Hwith, Hfound|]. rewrite Hwith in Hdocs |- *.
      assert (Forall (λ doc : Document, is_Some (doc !! "_id"))
                (buf ++ [document_of self r])) as Hbuf1.
      { apply Forall_app. split; [done|]. apply Forall_singleton.
        unfold document_of. rewrite pk_field. by eexists. }
      rewrite assign_with_ids in Hdocs |- * by done.
      assert (Forall (λ r1, carried_by self r1 (coll_docs w c)
                            ∨ waiting_in self r1 (coll_docs w c)
                                (buf ++ [document_of self r])) (done ++ [r])) as Hinv1.
      { apply Forall_app. split.
        - eapply Forall_impl; [exact Hinv|]. intros r1. apply settled_buffer.
        - apply Forall_singleton. right. split; [done|].
          apply find_first_last; [|by apply (stored_matches id_field self)].
          apply eq_None_not_Some. intros Hsome.
          by apply find_first_ids in Hsome. }
      case_bool_decide as Hflush.
      * apply Hnext; [by apply Forall_nil|..].
        -- apply Forall_forall. intros r2 _. apply not_elem_of_nil.
        -- rewrite Hdocs. eapply Forall_impl; [exact Hinv1|].
           intros r1 Hr1. left. by apply settled_flush.
      * apply Hnext; [done|..].
        -- apply Forall_forall. intros r2 Hin. destruct (Hrest r2 Hin) as [Ht2 Hne2].
           rewrite Forall_forall in Hfresh.
           rewrite ids_of_snoc, elem_of_app. intros [?|Hlast].
           ++ by apply (Hfresh r2 Hin).
           ++ apply list_elem_of_singleton in Hlast. injection Hlast as Heq.
              by apply (id_value_ne r2 r).
        -- by rewrite Hdocs, app_nil_r.
Qed.

(** X1.  For a batch of records with ids, pairwise distinct, on a store
    with a database handle: [upsert_batch_async] sends one [find_one] per
    record and one [update_one] per record that had a document, and
    returns one id per record that had none, so that the ids returned and
    the records updated add up to the batch.  (The mapping of [.utils] is
    taken to store the id of a record under the queried field and under
    ["_id"].) *)
Theorem upsert_batch_accounting self d collection_name (records : list MemoryRecord) w :
  _database self = Some d →
  NoDup (map _id records) →
  Forall (λ r, truthy_str (_id r) = true) records →
  let c := mkCollectionHandle d collection_name in
  let existing :=
    filter (λ r, is_Some (find_first (query_of r) (coll_docs w c))) records in
  ∃ ids w',
    upsert_batch_async self collection_name records w = (Ok ids, w')
    ∧ count_calls is_find_one (calls_since (length (trace w)) w') = length records
    ∧ count_calls is_update_one (calls_since (length (trace w)) w') = length existing
    ∧ (length ids + length existing = length records)%nat.
Proof.
  intros Hd Hnodup Htruthy c existing.
  rewrite (upsert_batch_async_run _ d) by done. fold c.
  destruct (upsert_loop_accounting self c records [] [] w)
    as (buf & ins & w1 & new & Hrun & Ht & Hlen & Hfind).
  destruct (upsert_loop_mixed self c (coll_docs w c) records Hnodup [] [] w)
    as (buf2 & ins2 & w2 & Hrun2 & _ & Hkeys); [|done|].
  { eapply Forall_impl; [exact Htruthy|]. intros r Hr.
    split; [done|]. split; [done|apply not_elem_of_nil]. }
  rewrite Hrun in Hrun2. injection Hrun2 as <- <- <-. rewrite Hrun.
  assert (length ins + length buf + length existing = length records)%nat as Hsplit.
  { simpl in Hkeys. apply (f_equal length) in Hkeys.
    rewrite length_app, !length_map in Hkeys.
    rewrite <- (length_filter_complement
                  (λ r, Some (id_value (_id r)) ∉ ids_of (coll_docs w c)) records).
    rewrite <- Hkeys. f_equal. unfold existing. f_equal.
    apply list_filter_iff. intros r. unfold query_of. rewrite find_first_ids.
    split; [by intros ? Hn; apply Hn|]. intros Hnn.
    by destruct (decide (Some (id_value (_id r)) ∈ ids_of (coll_docs w c)))
      as [?|Hn]; [|destruct (Hnn Hn)]. }
  simpl in Hlen. destruct buf as [|x buf].
  - exists ins, w1. split; [done|]. unfold calls_since.
    rewrite Ht, drop_app_length. simpl in *. repeat split; lia.
  - destruct (insert_many_run c (x :: buf) w1) as (w3 & Hrun3 & Ht3 & _); [done|].
    rewrite Hrun3. eexists _, w3. split; [done|]. cbn [inserted_ids].
    unfold calls_since. rewrite Ht3, Ht, <- app_assoc, drop_app_length.
    rewrite !count_calls_app, length_app, length_map, assign_object_ids_length.
    change (count_calls is_update_one [Call_insert_many c (x :: buf)]) with 0%nat.
    change (count_calls is_find_one [Call_insert_many c (x :: buf)]) with 0%nat.
    repeat split; lia.
Qed.

(** X16.  After [upsert_batch_async] of records with ids, pairwise
    distinct, every record of the batch has a document in the collection
    and the document found for it carries every field written for the
    record, whether the record was inserted or updated; every id the
    collection held is still there.  (The mapping of [.utils] is taken to
    store the id of a record under the queried field and under ["_id"].) *)
Theorem upsert_batch_stores_all self d collection_name (records : list MemoryRecord) w :
  _database self = Some d →
  NoDup (map _id records) →
  Forall (λ r, truthy_str (_id r) = true) records →
  let c := mkCollectionHandle d collection_name in
  ∃ ids w',
    upsert_batch_async self collection_name records w = (Ok ids, w')
    ∧ Forall (λ r, carried_by self r (coll_docs w' c)) records
    ∧ ∀ v : Val, Some v ∈ ids_of (coll_docs w c) → Some v ∈ ids_of (coll_docs w' c).
Proof.
  intros Hd Hnodup Htruthy c.
  rewrite (upsert_batch_async_run _ d) by done. fold c.
  destruct (upsert_loop_carries self c records [] [] [] w)
    as (buf & ins & w1 & Hrun & Hbuf & Hinv); try done.
  { apply Forall_forall. intros r _. apply not_elem_of_nil. }
  destruct (upsert_loop_stores self c records [] [] w)
    as (buf2 & ins2 & w2 & Hrun2 & Hmono & _).
  rewrite Hrun in Hrun2. injection Hrun2 as <- <- <-. rewrite Hrun.
  simpl in Hinv.
  assert (∀ w3, coll_docs w3 c = coll_docs w1 c ++ buf →
            Forall (λ r, carried_by self r (coll_docs w3 c)) records
            ∧ ∀ v : Val, Some v ∈ ids_of (coll_docs w c) →
                         Some v ∈ ids_of (coll_docs w3 c)) as Hfinish.
  { intros w3 Hw3. rewrite Hw3. split.
    - eapply Forall_impl; [exact Hinv|]. intros r. apply settled_flush.
    - intros v Hv. rewrite ids_of_app. apply Hmono. simpl.
      by rewrite app_nil_r. }
  destruct buf as [|x buf].
  - exists ins, w1. split; [done|]. apply Hfinish. by rewrite app_nil_r.
  - destruct (insert_many_run c (x :: buf) w1) as (w3 & Hrun3 & _ & Hdocs3 & _);
      [done|].
    rewrite Hrun3. eexists _, w3. split; [done|]. apply Hfinish.
    by rewrite Hdocs3, assign_with_ids.
Qed.

End ServerKey.

End Batches.

End Operations.

(** * Worked instances of the further properties *)

Lemma demo_round_trip (api_type : option string) (batch : Z)
    (r : @MemoryRecord (list Z)) :
  record_of (U:=Demo.utils) (Demo.store api_type batch)
    (document_of (U:=Demo.utils) (Demo.store api_type batch) r) = r.
Proof. by destruct r as [[i|] t e]. Defined.

(** [upsert_then_get] on a record without an id. *)
Lemma upsert_then_get_witness :
  let self := Demo.store (Some "azuremongodb") 1000 in
  let w := Demo.world Demo.stocked in
  let record := mkMemoryRecord None "third" [0; 0; 1] in
  _database self = Some Demo.db
  ∧ assigned_id w record = Some "7d1f"
  ∧ find_first (by_id (U:=Demo.utils) "7d1f") (coll_docs w Demo.coll) = None
  ∧ ∃ w1 w2,
      upsert_async (U:=Demo.utils) self "notes" record w = (Ok (Some (VStr "7d1f")), w1)
      ∧ get_async (U:=Demo.utils) self "notes" "7d1f" w1
        = (Ok (Some (mkMemoryRecord (Some "7d1f") "third" [0; 0; 1])), w2).
Proof.
  intros self w record.
  assert (_database self = Some Demo.db) as Hd by reflexivity.
  assert (assigned_id w record = Some "7d1f") as Hid by reflexivity.
  assert (find_first (by_id (U:=Demo.utils) "7d1f") (coll_docs w Demo.coll) = None)
    as Hnew by (vm_compute; reflexivity).
  split; [exact Hd|]. split; [exact Hid|]. split; [exact Hnew|].
  exact (upsert_then_get (U:=Demo.utils) demo_id_field self Demo.db "notes" record w
           "7d1f" Hd demo_id_field (demo_round_trip _ _) Hid Hnew).
Defined.

(** [upsert_twice] on a new note and its revision. *)
Lemma upsert_twice_witness :
  let self := Demo.store (Some "azuremongodb") 1000 in
  let w := Demo.world Demo.stocked in
  let r1 := Demo.record "c" "third" [0; 0; 1] in
  let r2 := Demo.record "c" "third, revised" [0; 1; 1] in
  _database self = Some Demo.db
  ∧ find_first (by_id (U:=Demo.utils) "c") (coll_docs w Demo.coll) = None
  ∧ ∃ first w1 w2,
      upsert_async (U:=Demo.utils) self "notes" r1 w = (Ok (Some first), w1)
      ∧ upsert_async (U:=Demo.utils) self "notes" r2 w1 = (Ok None, w2)
      ∧ length (coll_docs w2 Demo.coll) = 3%nat.
Proof.
  intros self w r1 r2.
  assert (_database self = Some Demo.db) as Hd by reflexivity.
  assert (find_first (by_id (U:=Demo.utils) "c") (coll_docs w Demo.coll) = None)
    as Hnew by (vm_compute; reflexivity).
  split; [exact Hd|]. split; [exact Hnew|].
  destruct (upsert_twice (U:=Demo.utils) demo_id_field self Demo.db "notes" r1 r2 w "c"
              Hd eq_refl eq_refl ltac:(discriminate) Hnew)
    as (first & stored & w1 & w2 & Hrun1 & Hrun2 & Hdocs & _).
  exists first, w1, w2. split; [exact Hrun1|]. split; [exact Hrun2|].
  change (coll_docs w2 Demo.coll)
    with (coll_docs w2 (mkCollectionHandle Demo.db "notes")).
  rewrite Hdocs, length_app. reflexivity.
Defined.

(** [get_is_first_of_batch] on a stored key. *)
Lemma get_is_first_of_batch_witness :
  let self := Demo.store (Some "azuremongodb") 1000 in
  let w := Demo.world Demo.stocked in
  _database self = Some Demo.db
  ∧ ∃ records w',
      get_batch_async (U:=Demo.utils) self "notes" ["a"] w = (Ok records, w')
      ∧ get_async (U:=Demo.utils) self "notes" "a" w = (Ok (head records), w').
Proof.
  intros self w.
  assert (_database self = Some Demo.db) as Hd by reflexivity.
  split; [exact Hd|].
  destruct (get_is_first_of_batch (U:=Demo.utils) self Demo.db "notes" "a" w Hd)
    as (records & w' & Hbatch & Hget & _).
  exists records, w'. split; [exact Hbatch|exact Hget].
Defined.

(** [get_batch_app] on a key list that repeats a key. *)
Lemma get_batch_app_witness :
  let self := Demo.store (Some "azuremongodb") 1000 in
  let w := Demo.world Demo.stocked in
  _database self = Some Demo.db
  ∧ ∃ records1 records2 w1 w2,
      get_batch_async (U:=Demo.utils) self "notes" ["a"] w = (Ok records1, w1)
      ∧ get_batch_async (U:=Demo.utils) self "notes" ["b"; "a"] w1 = (Ok records2, w2)
      ∧ get_batch_async (U:=Demo.utils) self "notes" ["a"; "b"; "a"] w
        = (Ok (records1 ++ records2), w2).
Proof.
  intros self w.
  assert (_database self = Some Demo.db) as Hd by reflexivity.
  split; [exact Hd|].
  exact (get_batch_app (U:=Demo.utils) self Demo.db "notes" ["a"] ["b"; "a"] w Hd).
Defined.

(** [remove_then_get] on a stored key. *)
Lemma remove_then_get_witness :
  let self := Demo.store (Some "azuremongodb") 1000 in
  let w := Demo.world Demo.stocked in
  _database self = Some Demo.db
  ∧ (length (filter (Matches (by_id (U:=Demo.utils) "a")) (coll_docs w Demo.coll)) ≤ 1)%nat
  ∧ ∃ w1 w2,
      remove_async (U:=Demo.utils) self "notes" "a" w = (Ok tt, w1)
      ∧ get_async (U:=Demo.utils) self "notes" "a" w1 = (Ok None, w2).
Proof.
  intros self w.
  assert (_database self = Some Demo.db) as Hd by reflexivity.
  assert (length (filter (Matches (by_id (U:=Demo.utils) "a")) (coll_docs w Demo.coll))
          ≤ 1)%nat as Hone by (vm_compute; constructor).
  split; [exact Hd|]. split; [exact Hone|].
  exact (remove_then_get (U:=Demo.utils) self Demo.db "notes" "a" w Hd Hone).
Defined.

(** [remove_keeps_other_keys] on the two stored keys. *)
Lemma remove_keeps_other_keys_witness :
  let self := Demo.store (Some "azuremongodb") 1000 in
  let w := Demo.world Demo.stocked in
  _database self = Some Demo.db
  ∧ "a" ≠ "b"
  ∧ ∃ w1,
      remove_async (U:=Demo.utils) self "notes" "a" w = (Ok tt, w1)
      ∧ (get_async (U:=Demo.utils) self "notes" "b" w1).1
        = (get_async (U:=Demo.utils) self "notes" "b" w).1.
Proof.
  intros self w.
  assert (_database self = Some Demo.db) as Hd by reflexivity.
  assert ("a" ≠ "b") as Hne by discriminate.
  split; [exact Hd|]. split; [exact Hne|].
  exact (remove_keeps_other_keys (U:=Demo.utils) self Demo.db "notes" "a" "b" w Hd Hne).
Defined.

(** [remove_batch_removes_keys] on a key list with a missing and a repeated
    key. *)
Lemma remove_batch_removes_keys_witness :
  let self := Demo.store (Some "azuremongodb") 1000 in
  let w := Demo.world Demo.stocked in
  let keys := ["a"; "missing"; "a"] in
  _database self = Some Demo.db
  ∧ Forall (λ key, (length (filter (Matches (by_id (U:=Demo.utils) key))
                              (coll_docs w Demo.coll)) ≤ 1)%nat) keys
  ∧ ∃ w',
      remove_batch_async (U:=Demo.utils) self "notes" keys w = (Ok tt, w')
      ∧ coll_docs w' Demo.coll = [Demo.doc_of "b" "second" [0; 1; 0]].
Proof.
  intros self w keys.
  assert (_database self = Some Demo.db) as Hd by reflexivity.
  assert (Forall (λ key, (length (filter (Matches (by_id (U:=Demo.utils) key))
                                    (coll_docs w Demo.coll)) ≤ 1)%nat) keys) as Hone.
  { repeat constructor. }
  split; [exact Hd|]. split; [exact Hone|].
  destruct (remove_batch_removes_keys (U:=Demo.utils) self Demo.db "notes" keys w Hd)
    as (w' & Hrun & Hdocs & _).
  { by apply Forall_forall. }
  exists w'. split; [exact Hrun|].
  change (coll_docs w' Demo.coll)
    with (coll_docs w' (mkCollectionHandle Demo.db "notes")).
  rewrite Hdocs. reflexivity.
Defined.

(** [delete_collection_contract] on the stocked collection. *)
Lemma delete_collection_contract_witness :
  let self := Demo.store (Some "azuremongodb") 1000 in
  let w := Demo.world Demo.stocked in
  _database self = Some Demo.db
  ∧ "drafts" ≠ "notes"
  ∧ ∃ w1 w2 w3,
      delete_collection_async self "notes" w = (Ok tt, w1)
      ∧ does_collection_exist_async self "notes" w1 = (Ok false, w2)
      ∧ get_async (U:=Demo.utils) self "notes" "a" w1 = (Ok None, w3).
Proof.
  intros self w.
  assert (_database self = Some Demo.db) as Hd by reflexivity.
  assert ("drafts" ≠ "notes") as Hne by discriminate.
  split; [exact Hd|]. split; [exact Hne|].
  destruct (delete_collection_contract (U:=Demo.utils) self Demo.db "notes" "drafts" "a"
              w Hd Hne) as (w1 & w2 & w3 & Hdrop & Hexists & Hget & _).
  exists w1, w2, w3. split; [exact Hdrop|]. split; [exact Hexists|exact Hget].
Defined.

(** [create_collection_idempotent] under the Atlas dialect on an empty
    server. *)
Lemma create_collection_idempotent_witness :
  let self := Demo.store (Some "mongodbatlas") 1000 in
  let w := Demo.world ∅ in
  _database self = Some Demo.db
  ∧ ∃ w1 w2,
      create_collection_async self "notes" "COS" 100 w = (Ok tt, w1)
      ∧ create_collection_async self "notes" "COS" 100 w1 = (Ok tt, w2)
      ∧ server w2 = server w1
      ∧ is_Some (db_state w1 Demo.db !! "notes").
Proof.
  intros self w.
  assert (_database self = Some Demo.db) as Hd by reflexivity.
  split; [exact Hd|].
  destruct (create_collection_idempotent self Demo.db "notes" "COS" 100 w Hd)
    as (w1 & w2 & Hrun1 & Hrun2 & Hserver & _ & Hexists).
  exists w1, w2. split; [exact Hrun1|]. split; [exact Hrun2|].
  split; [exact Hserver|]. apply Hexists. by right.
Defined.

(** [does_index_exist_never_true] on a collection that carries the index
    asked for. *)
Lemma does_index_exist_never_true_witness :
  let self := Demo.store (Some "mongodbatlas") 1000 in
  let w := Demo.world Demo.indexed in
  _database self = Some Demo.db
  ∧ has_index w Demo.coll "vectorSearchIndex" = true
  ∧ does_index_exist_async self "notes" (PyStr "vectorSearchIndex") w
    = (Ok false, log w (Call_list_indexes Demo.coll)).
Proof.
  intros self w.
  assert (_database self = Some Demo.db) as Hd by reflexivity.
  split; [exact Hd|]. split; [reflexivity|].
  apply (does_index_exist_never_true self Demo.db "notes" (PyStr "vectorSearchIndex") w Hd).
  intros doc. discriminate.
Defined.

(** [no_database_handle] on an object fresh from the class body. *)
Lemma no_database_handle_witness :
  let w := Demo.world Demo.stocked in
  _database class_attributes = None
  ∧ does_index_exist_async class_attributes "notes" (PyStr "vectorSearchIndex") w
    = (Raise (TypeError "'NoneType' object is not subscriptable"), w)
  ∧ get_async (U:=Demo.utils) class_attributes "notes" "a" w
    = (Raise (TypeError "'NoneType' object is not subscriptable"), w).
Proof.
  intros w. split; [reflexivity|].
  destruct (no_database_handle (U:=Demo.utils) class_attributes "notes"
              (Demo.record "a" "first" [1; 0; 0]) [] "a" []
              (PyStr "vectorSearchIndex") [1; 0; 0] 1 w eq_refl)
    as (Hindex & _ & _ & Hget & _).
  split; [exact Hindex|exact Hget].
Defined.

(** [close_after_init] on the arguments of the demo store. *)
Lemma close_after_init_witness :
  let w := Demo.world ∅ in
  let self := Demo.store (Some "azuremongodb") 1000 in
  rejected_arguments 3 (Some "embedding") (Some "memory") (Some "notes") = false
  ∧ close_async self w
    = (Raise (TypeError "object NoneType can't be used in 'await' expression"),
       log w (Call_close (mkMongoClient (Some "mongodb://localhost")))).
Proof.
  intros w self.
  assert (rejected_arguments 3 (Some "embedding") (Some "memory") (Some "notes")
          = false) as Hok by reflexivity.
  split; [exact Hok|].
  destruct (close_after_init (U:=Demo.utils) class_attributes 3
              (Some "mongodb://localhost") (Some "memory") (Some "azuremongodb")
              (Some "embedding") (Some "notes") (Some "vectorSearchIndex") 1000 None
              (Demo.world ∅) w Hok) as ((client & _ & Hclient & Hclose) & _).
  rewrite (Hclient "memory" eq_refl) in Hclose. exact Hclose.
Defined.

(** [constructor_arguments_ignored] on two stores that share only the
    connection, the database, the dialect and the embedding key. *)
Lemma constructor_arguments_ignored_witness :
  let w := Demo.world Demo.stocked in
  let store1 := (__init__ (U:=Demo.utils) class_attributes 3
                   (Some "mongodb://localhost") (Some "memory") (Some "mongodbatlas")
                   (Some "embedding") (Some "notes") (Some "vectorSearchIndex")
                   1000 None w).1.2 in
  let store2 := (__init__ (U:=Demo.utils) class_attributes 1536
                   (Some "mongodb://localhost") (Some "memory") (Some "mongodbatlas")
                   (Some "embedding") (Some "drafts") (Some "otherIndex")
                   7 (Some (UserLogger "audit")) w).1.2 in
  rejected_arguments 3 (Some "embedding") (Some "memory") (Some "notes") = false
  ∧ rejected_arguments 1536 (Some "embedding") (Some "memory") (Some "drafts") = false
  ∧ get_nearest_matches_async (U:=Demo.utils) store1 "notes" [1; 0; 0] 1
    = get_nearest_matches_async (U:=Demo.utils) store2 "notes" [1; 0; 0] 1.
Proof.
  intros w store1 store2.
  assert (rejected_arguments 3 (Some "embedding") (Some "memory") (Some "notes")
          = false) as Hok1 by reflexivity.
  assert (rejected_arguments 1536 (Some "embedding") (Some "memory") (Some "drafts")
          = false) as Hok2 by reflexivity.
  split; [exact Hok1|]. split; [exact Hok2|].
  destruct (constructor_arguments_ignored (U:=Demo.utils)
              (Some "mongodb://localhost") (Some "memory") (Some "mongodbatlas")
              (Some "embedding")
              class_attributes 3 (Some "notes") (Some "vectorSearchIndex") 1000 None w
              class_attributes 1536 (Some "drafts") (Some "otherIndex") 7
              (Some (UserLogger "audit")) w
              "notes" [] [] [1; 0; 0] 1 Hok1 Hok2) as (_ & _ & _ & Hsearch).
  exact Hsearch.
Defined.

(** [upsert_batch_returns_new_ids] on a batch of one new, one stored and
    one more new note. *)
Lemma upsert_batch_returns_new_ids_witness :
  let self := Demo.store (Some "azuremongodb") 1000 in
  let w := Demo.world Demo.stocked in
  let records := [Demo.record "c" "third" [0; 0; 1];
                  Demo.record "a" "first, revised" [1; 0; 1];
                  Demo.record "d" "fourth" [1; 1; 1]] in
  _database self = Some Demo.db
  ∧ NoDup (map _id records)
  ∧ Forall (λ r, truthy_str (_id r) = true) records
  ∧ ∃ w',
      upsert_batch_async (U:=Demo.utils) self "notes" records w
      = (Ok [VStr "c"; VStr "d"], w').
Proof.
  intros self w records.
  assert (_database self = Some Demo.db) as Hd by reflexivity.
  assert (NoDup (map _id records)) as Hnodup.
  { refine (bool_decide_unpack (NoDup (map _id records)) _). vm_compute. exact I. }
  assert (Forall (λ r, truthy_str (_id r) = true) records) as Htruthy.
  { repeat constructor. }
  split; [exact Hd|]. split; [exact Hnodup|]. split; [exact Htruthy|].
  destruct (upsert_batch_returns_new_ids (U:=Demo.utils) demo_id_field demo_id_field
              self Demo.db "notes" records w Hd Hnodup Htruthy) as (w' & Hrun).
  exists w'. rewrite Hrun. reflexivity.
Defined.

(** [upsert_batch_accounting] on a batch of two new notes around a stored
    one. *)
Lemma upsert_batch_accounting_witness :
  let self := Demo.store (Some "azuremongodb") 1000 in
  let w := Demo.world Demo.stocked in
  let records := [Demo.record "c" "third" [0; 0; 1];
                  Demo.record "b" "second, revised" [0; 1; 1];
                  Demo.record "d" "fourth" [1; 1; 1]] in
  _database self = Some Demo.db
  ∧ NoDup (map _id records)
  ∧ Forall (λ r, truthy_str (_id r) = true) records
  ∧ ∃ ids w',
      upsert_batch_async (U:=Demo.utils) self "notes" records w = (Ok ids, w')
      ∧ count_calls is_find_one (calls_since 0 w') = 3%nat
      ∧ count_calls is_update_one (calls_since 0 w') = 1%nat.
Proof.
  intros self w records.
  assert (_database self = Some Demo.db) as Hd by reflexivity.
  assert (NoDup (map _id records)) as Hnodup.
  { refine (bool_decide_unpack (NoDup (map _id records)) _). vm_compute. exact I. }
  assert (Forall (λ r, truthy_str (_id r) = true) records) as Htruthy.
  { repeat constructor. }
  split; [exact Hd|]. split; [exact Hnodup|]. split; [exact Htruthy|].
  destruct (upsert_batch_accounting (U:=Demo.utils) demo_id_field demo_id_field
              self Demo.db "notes" records w Hd Hnodup Htruthy)
    as (ids & w' & Hrun & Hfinds & Hupdates & _).
  exists ids, w'. split; [exact Hrun|]. split; [exact Hfinds|exact Hupdates].
Defined.

(** [upsert_batch_stores_all] on the same kind of batch. *)
Lemma upsert_batch_stores_all_witness :
  let self := Demo.store (Some "azuremongodb") 1000 in
  let w := Demo.world Demo.stocked in
  let records := [Demo.record "c" "third" [0; 0; 1];
                  Demo.record "a" "first, revised" [1; 0; 1];
                  Demo.record "d" "fourth" [1; 1; 1]] in
  _database self = Some Demo.db
  ∧ NoDup (map _id records)
  ∧ Forall (λ r, truthy_str (_id r) = true) records
  ∧ ∃ ids w',
      upsert_batch_async (U:=Demo.utils) self "notes" records w = (Ok ids, w')
      ∧ Forall (λ r, carried_by (U:=Demo.utils) self r (coll_docs w' Demo.coll)) records.
Proof.
  intros self w records.
  assert (_database self = Some Demo.db) as Hd by reflexivity.
  assert (NoDup (map _id records)) as Hnodup.
  { refine (bool_decide_unpack (NoDup (map _id records)) _). vm_compute. exact I. }
  assert (Forall (λ r, truthy_str (_id r) = true) records) as Htruthy.
  { repeat constructor. }
  split; [exact Hd|]. split; [exact Hnodup|]. split; [exact Htruthy|].
  destruct (upsert_batch_stores_all (U:=Demo.utils) demo_id_field demo_id_field
              self Demo.db "notes" records w Hd Hnodup Htruthy)
    as (ids & w' & Hrun & Hall & _).
  exists ids, w'. split; [exact Hrun|exact Hall].
Defined.
